(** * wlr_keyboard: the keyboard core of wlroots (types/wlr_keyboard.c)

    A shallow embedding of the keyboard state machine: the set of held
    keycodes, the modifier masks serialized from the xkbcommon state, the
    keymap swap protocol, the LED mask and the signals emitted on the way.

    The xkbcommon library is an external collaborator.  It is taken as an
    interface (the class [XkbCommon]); every statement about the core is
    proved for all implementations of that interface.  A small reference
    implementation ([Ref]) follows the return conventions documented in
    xkbcommon.h and is used to run the core on concrete inputs.

    Signal delivery is recorded, not executed: a call yields the keyboard
    it leaves and the trace of its effects; [wlr_keyboard_destroy], which
    frees the keyboard, yields the trace of its effects only. *)

From Stdlib Require Import ZArith List String Bool Lia Permutation.
Import ListNotations.
Open Scope Z_scope.

(** ** Machine integers and constants *)

(** Wrap-around of [uint32_t] arithmetic. *)
Definition u32 (x : Z) : Z := x mod 2 ^ 32.

(** Modelled from the spec: the header wlr/types/wlr_keyboard.h, which
    declares these constants, is not part of the sources at hand.  The spec
    fixes three indicators, eight standard modifiers and a capacity of 32
    held keycodes. *)
Definition WLR_LED_COUNT : nat := 3.
Definition WLR_MODIFIER_COUNT : nat := 8.
Definition WLR_KEYBOARD_KEYS_CAP : nat := 32.

(** xkbcommon.h: the "absent" index for modifiers and for LEDs. *)
Definition XKB_MOD_INVALID : Z := 4294967295.
Definition XKB_LED_INVALID : Z := 4294967295.

(** xkbcommon-names.h, in the order of the tables built by
    [wlr_keyboard_set_keymap]. *)
Definition led_names : list string :=
  ["Num Lock"; "Caps Lock"; "Scroll Lock"]%string.

Definition mod_names : list string :=
  ["Shift"; "Lock"; "Control"; "Mod1"; "Mod2"; "Mod3"; "Mod4"; "Mod5"]%string.

(** ** The xkbcommon interface *)

Inductive xkb_key_direction := XKB_KEY_UP | XKB_KEY_DOWN.

Inductive xkb_state_component :=
| XKB_STATE_MODS_DEPRESSED
| XKB_STATE_MODS_LATCHED
| XKB_STATE_MODS_LOCKED
| XKB_STATE_LAYOUT_EFFECTIVE.

(** The calls of libxkbcommon the keyboard core makes.  An [xkb_state] is a
    mutable object in C; here every updating call returns the new state.
    [xkb_state_led_index_is_active] returns a C [int]. *)
Class XkbCommon := {
  struct_xkb_keymap : Type;
  struct_xkb_state : Type;
  xkb_state_new : struct_xkb_keymap -> option struct_xkb_state;
  xkb_map_led_get_index : struct_xkb_keymap -> string -> Z;
  xkb_map_mod_get_index : struct_xkb_keymap -> string -> Z;
  xkb_keymap_get_as_string : struct_xkb_keymap -> option string;
  xkb_state_update_key :
    struct_xkb_state -> Z -> xkb_key_direction -> struct_xkb_state;
  xkb_state_update_mask :
    struct_xkb_state -> Z -> Z -> Z -> Z -> Z -> Z -> struct_xkb_state;
  xkb_state_serialize_mods : struct_xkb_state -> xkb_state_component -> Z;
  xkb_state_serialize_layout : struct_xkb_state -> xkb_state_component -> Z;
  xkb_state_led_index_is_active : struct_xkb_state -> Z -> Z
}.

(** ** Data model *)

Inductive wlr_key_state := WLR_KEY_RELEASED | WLR_KEY_PRESSED.

Record wlr_event_keyboard_key := {
  time_msec : Z;
  keycode : Z;
  update_state : bool;
  state : wlr_key_state
}.

Record wlr_keyboard_modifiers := {
  depressed : Z;
  latched : Z;
  locked : Z;
  group : Z
}.

Record wlr_keyboard_repeat_info := { rate : Z; delay : Z }.

(** Which of the optional backend hooks are non-NULL. *)
Record wlr_keyboard_impl := { destroy : bool; led_update : bool }.

(** The feeds of [keyboard->events]. *)
Inductive signal :=
| events_key (event : wlr_event_keyboard_key)
| events_modifiers
| events_keymap
| events_repeat_info
| events_destroy.

Section Keyboard.
Context `{XkbCommon}.

(** [keycodes] holds the first [num_keycodes] cells of the C array; the
    cells beyond are never read. *)
Record wlr_keyboard := {
  impl : option wlr_keyboard_impl;
  keymap_string : option string;
  keymap_size : Z;
  keymap : option struct_xkb_keymap;
  xkb_state : option struct_xkb_state;
  led_indexes : list Z;
  mod_indexes : list Z;
  keycodes : list Z;
  modifiers : wlr_keyboard_modifiers;
  repeat_info : wlr_keyboard_repeat_info
}.

Definition num_keycodes (kb : wlr_keyboard) : nat := List.length (keycodes kb).

(** What a call does to the outside world, in order. *)
Inductive effect :=
| wlr_signal_emit_safe (s : signal)
| impl_led_update (leds : Z)
| wlr_log (msg : string)
| xkb_keymap_ref (km : struct_xkb_keymap)
| xkb_keymap_unref (km : option struct_xkb_keymap)
| xkb_state_unref (st : option struct_xkb_state)
| free (s : option string).

(** *** Field updates *)

Definition with_keymap_string v kb :=
  {| impl := impl kb; keymap_string := v; keymap_size := keymap_size kb;
     keymap := keymap kb; xkb_state := xkb_state kb;
     led_indexes := led_indexes kb; mod_indexes := mod_indexes kb;
     keycodes := keycodes kb; modifiers := modifiers kb;
     repeat_info := repeat_info kb |}.

Definition with_keymap_size v kb :=
  {| impl := impl kb; keymap_string := keymap_string kb; keymap_size := v;
     keymap := keymap kb; xkb_state := xkb_state kb;
     led_indexes := led_indexes kb; mod_indexes := mod_indexes kb;
     keycodes := keycodes kb; modifiers := modifiers kb;
     repeat_info := repeat_info kb |}.

Definition with_keymap v kb :=
  {| impl := impl kb; keymap_string := keymap_string kb;
     keymap_size := keymap_size kb;
     keymap := v; xkb_state := xkb_state kb;
     led_indexes := led_indexes kb; mod_indexes := mod_indexes kb;
     keycodes := keycodes kb; modifiers := modifiers kb;
     repeat_info := repeat_info kb |}.

Definition with_xkb_state v kb :=
  {| impl := impl kb; keymap_string := keymap_string kb;
     keymap_size := keymap_size kb;
     keymap := keymap kb; xkb_state := v;
     led_indexes := led_indexes kb; mod_indexes := mod_indexes kb;
     keycodes := keycodes kb; modifiers := modifiers kb;
     repeat_info := repeat_info kb |}.

Definition with_led_indexes v kb :=
  {| impl := impl kb; keymap_string := keymap_string kb;
     keymap_size := keymap_size kb;
     keymap := keymap kb; xkb_state := xkb_state kb;
     led_indexes := v; mod_indexes := mod_indexes kb;
     keycodes := keycodes kb; modifiers := modifiers kb;
     repeat_info := repeat_info kb |}.

Definition with_mod_indexes v kb :=
  {| impl := impl kb; keymap_string := keymap_string kb;
     keymap_size := keymap_size kb;
     keymap := keymap kb; xkb_state := xkb_state kb;
     led_indexes := led_indexes kb; mod_indexes := v;
     keycodes := keycodes kb; modifiers := modifiers kb;
     repeat_info := repeat_info kb |}.

Definition with_keycodes v kb :=
  {| impl := impl kb; keymap_string := keymap_string kb;
     keymap_size := keymap_size kb;
     keymap := keymap kb; xkb_state := xkb_state kb;
     led_indexes := led_indexes kb; mod_indexes := mod_indexes kb;
     keycodes := v; modifiers := modifiers kb;
     repeat_info := repeat_info kb |}.

Definition with_modifiers v kb :=
  {| impl := impl kb; keymap_string := keymap_string kb;
     keymap_size := keymap_size kb;
     keymap := keymap kb; xkb_state := xkb_state kb;
     led_indexes := led_indexes kb; mod_indexes := mod_indexes kb;
     keycodes := keycodes kb; modifiers := v;
     repeat_info := repeat_info kb |}.

Definition with_repeat_info v kb :=
  {| impl := impl kb; keymap_string := keymap_string kb;
     keymap_size := keymap_size kb;
     keymap := keymap kb; xkb_state := xkb_state kb;
     led_indexes := led_indexes kb; mod_indexes := mod_indexes kb;
     keycodes := keycodes kb; modifiers := modifiers kb;
     repeat_info := v |}.

(** *** The monad of keyboard operations

    An operation reads and writes the keyboard, appends to the trace of
    effects, and is aborted ([None]) by a failed [assert]. *)

Definition M (A : Type) : Type :=
  wlr_keyboard -> option (A * wlr_keyboard * list effect).

Definition ret {A} (a : A) : M A := fun kb => Some (a, kb, []).

Definition bind {A B} (m : M A) (f : A -> M B) : M B :=
  fun kb =>
    match m kb with
    | None => None
    | Some (a, kb1, t1) =>
        match f a kb1 with
        | None => None
        | Some (b, kb2, t2) => Some (b, kb2, t1 ++ t2)
        end
    end.

Definition get : M wlr_keyboard := fun kb => Some (kb, kb, []).

Definition modify (f : wlr_keyboard -> wlr_keyboard) : M unit :=
  fun kb => Some (tt, f kb, []).

Definition emit (e : effect) : M unit := fun kb => Some (tt, kb, [e]).

Definition assert (b : bool) : M unit :=
  fun kb => if b then Some (tt, kb, []) else None.

End Keyboard.

Arguments wlr_keyboard {_}.
Arguments effect {_}.
Arguments M {_} A.

Declare Scope kb_scope.
Delimit Scope kb_scope with kb.
Notation "x <- m ;; k" := (bind m (fun x => k))
  (at level 61, m at next level, right associativity) : kb_scope.
Notation "m ;; k" := (bind m (fun _ => k))
  (at level 61, right associativity) : kb_scope.
Open Scope kb_scope.

(** ** util/array.h: a bounded set kept in an array *)

(** Modelled from the spec: util/array.c, which defines [set_add] and
    [set_remove], is not part of the sources at hand.  The spec (4.1): add
    "inserts if absent, capped at capacity"; remove "deletes if present,
    no-op otherwise".  [values] is the used prefix of the array, its length
    is [*len]. *)
Definition set_add (values : list Z) (cap : nat) (target : Z) : list Z :=
  if existsb (Z.eqb target) values then values
  else if (List.length values <? cap)%nat then values ++ [target]
  else values.

Definition set_remove (values : list Z) (cap : nat) (target : Z) : list Z :=
  remove Z.eq_dec target values.

(** ** The operations of wlr_keyboard.c *)

Section Operations.
Context `{XkbCommon}.

(** A freshly allocated (zero-filled) [struct wlr_keyboard]. *)
Definition zeroed : wlr_keyboard :=
  {| impl := None; keymap_string := None; keymap_size := 0;
     keymap := None; xkb_state := None;
     led_indexes := repeat 0 WLR_LED_COUNT;
     mod_indexes := repeat 0 WLR_MODIFIER_COUNT;
     keycodes := [];
     modifiers := {| depressed := 0; latched := 0; locked := 0; group := 0 |};
     repeat_info := {| rate := 0; delay := 0 |} |}.

Definition with_impl (v : option wlr_keyboard_impl) (kb : wlr_keyboard) :=
  {| impl := v; keymap_string := keymap_string kb;
     keymap_size := keymap_size kb;
     keymap := keymap kb; xkb_state := xkb_state kb;
     led_indexes := led_indexes kb; mod_indexes := mod_indexes kb;
     keycodes := keycodes kb; modifiers := modifiers kb;
     repeat_info := repeat_info kb |}.

Definition wlr_keyboard_led_update (leds : Z) : M unit :=
  kb <- get ;;
  match impl kb with
  | Some i => if led_update i then emit (impl_led_update leds) else ret tt
  | None => ret tt
  end.

(** The loop of [keyboard_led_update]: the C condition is the [int]
    returned by the library, tested against zero. *)
Definition led_step (st : struct_xkb_state) (indexes : list Z)
    (leds : Z) (i : nat) : Z :=
  if xkb_state_led_index_is_active st (nth i indexes 0) =? 0 then leds
  else Z.lor leds (Z.shiftl 1 (Z.of_nat i)).

Definition led_mask (st : struct_xkb_state) (indexes : list Z) : Z :=
  fold_left (led_step st indexes) (seq 0 WLR_LED_COUNT) 0.

Definition keyboard_led_update : M unit :=
  kb <- get ;;
  match xkb_state kb with
  | None => ret tt
  | Some st => wlr_keyboard_led_update (led_mask st (led_indexes kb))
  end.

(** The four values [keyboard_modifier_update] serializes. *)
Definition serialized (st : struct_xkb_state) : wlr_keyboard_modifiers :=
  {| depressed := xkb_state_serialize_mods st XKB_STATE_MODS_DEPRESSED;
     latched := xkb_state_serialize_mods st XKB_STATE_MODS_LATCHED;
     locked := xkb_state_serialize_mods st XKB_STATE_MODS_LOCKED;
     group := xkb_state_serialize_layout st XKB_STATE_LAYOUT_EFFECTIVE |}.

Definition modifiers_eqb (a b : wlr_keyboard_modifiers) : bool :=
  (depressed a =? depressed b) && (latched a =? latched b) &&
  (locked a =? locked b) && (group a =? group b).

Definition keyboard_modifier_update : M bool :=
  kb <- get ;;
  match xkb_state kb with
  | None => ret false
  | Some st =>
      let new := serialized st in
      if modifiers_eqb new (modifiers kb) then ret false
      else modify (with_modifiers new) ;; ret true
  end.

Definition keyboard_key_update (event : wlr_event_keyboard_key) : M unit :=
  match state event with
  | WLR_KEY_PRESSED =>
      modify (fun kb => with_keycodes
        (set_add (keycodes kb) WLR_KEYBOARD_KEYS_CAP (keycode event)) kb)
  | WLR_KEY_RELEASED => ret tt
  end ;;
  match state event with
  | WLR_KEY_RELEASED =>
      modify (fun kb => with_keycodes
        (set_remove (keycodes kb) WLR_KEYBOARD_KEYS_CAP (keycode event)) kb)
  | WLR_KEY_PRESSED => ret tt
  end ;;
  kb <- get ;;
  assert (num_keycodes kb <=? WLR_KEYBOARD_KEYS_CAP)%nat.

Definition wlr_keyboard_notify_modifiers
    (mods_depressed mods_latched mods_locked group : Z) : M unit :=
  kb <- get ;;
  match xkb_state kb with
  | None => ret tt
  | Some st =>
      modify (with_xkb_state (Some (xkb_state_update_mask st
        mods_depressed mods_latched mods_locked 0 0 group))) ;;
      updated <- keyboard_modifier_update ;;
      (if updated : bool then emit (wlr_signal_emit_safe events_modifiers)
       else ret tt) ;;
      keyboard_led_update
  end.

Definition wlr_keyboard_notify_key (event : wlr_event_keyboard_key)
    : M unit :=
  keyboard_key_update event ;;
  emit (wlr_signal_emit_safe (events_key event)) ;;
  kb <- get ;;
  match xkb_state kb with
  | None => ret tt
  | Some st =>
      (if update_state event then
         modify (with_xkb_state (Some (xkb_state_update_key st
           (u32 (keycode event + 8))
           (match state event with
            | WLR_KEY_PRESSED => XKB_KEY_DOWN
            | WLR_KEY_RELEASED => XKB_KEY_UP
            end))))
       else ret tt) ;;
      updated <- keyboard_modifier_update ;;
      (if updated : bool then emit (wlr_signal_emit_safe events_modifiers)
       else ret tt) ;;
      keyboard_led_update
  end.

Definition wlr_keyboard_init (impl : option wlr_keyboard_impl) : M unit :=
  modify (with_impl impl) ;;
  modify (with_repeat_info {| rate := 25; delay := 600 |}).

(** The replay loop of [wlr_keyboard_set_keymap]. *)
Definition replay_keys (st : struct_xkb_state) (held : list Z)
    : struct_xkb_state :=
  fold_left (fun s k => xkb_state_update_key s (u32 (k + 8)) XKB_KEY_DOWN)
    held st.

(** The code after the label [err]. *)
Definition set_keymap_err (new_keymap : struct_xkb_keymap) : M unit :=
  kb <- get ;;
  emit (xkb_state_unref (xkb_state kb)) ;;
  modify (with_xkb_state None) ;;
  emit (xkb_keymap_unref (Some new_keymap)) ;;
  modify (with_keymap None) ;;
  kb <- get ;;
  emit (free (keymap_string kb)) ;;
  modify (with_keymap_string None).

Definition wlr_keyboard_set_keymap (new_keymap : struct_xkb_keymap)
    : M unit :=
  kb <- get ;;
  emit (xkb_keymap_unref (keymap kb)) ;;
  emit (xkb_keymap_ref new_keymap) ;;
  modify (with_keymap (Some new_keymap)) ;;
  emit (xkb_state_unref (xkb_state kb)) ;;
  modify (with_xkb_state (xkb_state_new new_keymap)) ;;
  match xkb_state_new new_keymap with
  | None =>
      emit (wlr_log "Failed to create XKB state") ;;
      set_keymap_err new_keymap
  | Some st =>
      modify (with_led_indexes
        (map (xkb_map_led_get_index new_keymap) led_names)) ;;
      modify (with_mod_indexes
        (map (xkb_map_mod_get_index new_keymap) mod_names)) ;;
      match xkb_keymap_get_as_string new_keymap with
      | None =>
          emit (wlr_log "Failed to get string version of keymap") ;;
          set_keymap_err new_keymap
      | Some tmp_keymap_string =>
          kb <- get ;;
          emit (free (keymap_string kb)) ;;
          modify (with_keymap_string (Some tmp_keymap_string)) ;;
          modify (with_keymap_size
            (Z.of_nat (String.length tmp_keymap_string) + 1)) ;;
          modify (with_xkb_state (Some (replay_keys st (keycodes kb)))) ;;
          keyboard_modifier_update ;;
          emit (wlr_signal_emit_safe events_keymap)
      end
  end.

Definition wlr_keyboard_set_repeat_info (rate' delay' : Z) : M unit :=
  kb <- get ;;
  if (rate (repeat_info kb) =? rate') && (delay (repeat_info kb) =? delay')
  then ret tt
  else
    modify (with_repeat_info {| rate := rate'; delay := delay' |}) ;;
    emit (wlr_signal_emit_safe events_repeat_info).

(** The shift [1 << kb->mod_indexes[i]] is an [int] shift, converted to
    [uint32_t] for the conjunction with the mask: for an index below 32 it
    is the bit at that index, beyond 32 C leaves it undefined.  The two
    nested tests are the short-circuit [&&] of the source. *)
Definition modifiers_step (kb : wlr_keyboard) (mask : Z)
    (modifiers : Z) (i : nat) : Z :=
  let idx := nth i (mod_indexes kb) 0 in
  if idx =? XKB_MOD_INVALID then modifiers
  else if Z.land mask (u32 (Z.shiftl 1 idx)) =? 0 then modifiers
  else Z.lor modifiers (Z.shiftl 1 (Z.of_nat i)).

Definition wlr_keyboard_get_modifiers (kb : wlr_keyboard) : Z :=
  let mask := Z.lor (depressed (modifiers kb)) (latched (modifiers kb)) in
  fold_left (modifiers_step kb mask) (seq 0 WLR_MODIFIER_COUNT) 0.

(** *** Running an operation *)

Definition run {A} (m : M A) (kb : wlr_keyboard)
    : option (wlr_keyboard * list effect) :=
  match m kb with
  | Some (_, kb', t) => Some (kb', t)
  | None => None
  end.

(** The signals of a trace, in order. *)
Definition signals (t : list effect) : list signal :=
  flat_map (fun e =>
    match e with wlr_signal_emit_safe s => [s] | _ => [] end) t.

(** The masks handed to the backend's LED hook, in order. *)
Definition led_pushes (t : list effect) : list Z :=
  flat_map (fun e => match e with impl_led_update l => [l] | _ => [] end) t.

(** The reference counting of keymaps in a trace, in order. *)
Definition keymap_refs (t : list effect) : list effect :=
  filter (fun e =>
    match e with
    | xkb_keymap_ref _ | xkb_keymap_unref _ => true
    | _ => false
    end) t.

Definition is_modifiers (s : signal) : bool :=
  match s with events_modifiers => true | _ => false end.

Definition is_keymap (s : signal) : bool :=
  match s with events_keymap => true | _ => false end.

End Operations.

(** ** A reference implementation of the xkbcommon interface

    A keymap lists its modifier names and its LED names by index, the
    modifier mask each key contributes while it is down, and the outcome of
    the two fallible library calls.  The state keeps the three modifier
    masks and the layout.  Return conventions are those documented in
    xkbcommon.h: an unknown name has index [XKB_MOD_INVALID] or
    [XKB_LED_INVALID]; [xkb_state_led_index_is_active] returns 1 or 0 for a
    LED of the keymap and -1 for an index the keymap does not have. *)
Module Ref.

Record keymap_t := {
  mods : list string;
  leds : list (string * Z);
  keys : list (Z * Z);
  text : option string;
  state_alloc : bool
}.

Record state_t := {
  of_keymap : keymap_t;
  base : Z;
  latch : Z;
  lock : Z;
  layout : Z
}.

Fixpoint index_of (name : string) (l : list string) (i : Z) : option Z :=
  match l with
  | [] => None
  | n :: l' => if String.eqb n name then Some i else index_of name l' (i + 1)
  end.

Definition mod_get_index (km : keymap_t) (name : string) : Z :=
  match index_of name (mods km) 0 with
  | Some i => i
  | None => XKB_MOD_INVALID
  end.

Definition led_get_index (km : keymap_t) (name : string) : Z :=
  match index_of name (map fst (leds km)) 0 with
  | Some i => i
  | None => XKB_LED_INVALID
  end.

Definition key_mask (km : keymap_t) (kc : Z) : Z :=
  match find (fun p => fst p =? kc) (keys km) with
  | Some p => snd p
  | None => 0
  end.

Definition fresh (km : keymap_t) : state_t :=
  {| of_keymap := km; base := 0; latch := 0; lock := 0; layout := 0 |}.

Definition state_new (km : keymap_t) : option state_t :=
  if state_alloc km then Some (fresh km) else None.

Definition update_key (s : state_t) (kc : Z) (d : xkb_key_direction)
    : state_t :=
  let m := key_mask (of_keymap s) kc in
  {| of_keymap := of_keymap s;
     base := match d with
             | XKB_KEY_DOWN => Z.lor (base s) m
             | XKB_KEY_UP => Z.ldiff (base s) m
             end;
     latch := latch s; lock := lock s; layout := layout s |}.

Definition update_mask (s : state_t)
    (depressed_mods latched_mods locked_mods : Z)
    (depressed_layout latched_layout locked_layout : Z) : state_t :=
  let all := Z.ones (Z.of_nat (List.length (mods (of_keymap s)))) in
  {| of_keymap := of_keymap s;
     base := Z.land depressed_mods all;
     latch := Z.land latched_mods all;
     lock := Z.land locked_mods all;
     layout := u32 (depressed_layout + latched_layout + locked_layout) |}.

Definition serialize_mods (s : state_t) (c : xkb_state_component) : Z :=
  match c with
  | XKB_STATE_MODS_DEPRESSED => base s
  | XKB_STATE_MODS_LATCHED => latch s
  | XKB_STATE_MODS_LOCKED => lock s
  | XKB_STATE_LAYOUT_EFFECTIVE => 0
  end.

Definition serialize_layout (s : state_t) (c : xkb_state_component) : Z :=
  match c with
  | XKB_STATE_LAYOUT_EFFECTIVE => layout s
  | _ => 0
  end.

Fixpoint led_at (l : list (string * Z)) (idx : Z) : option (string * Z) :=
  match l with
  | [] => None
  | x :: l' => if idx =? 0 then Some x else led_at l' (idx - 1)
  end.

Definition led_index_is_active (s : state_t) (idx : Z) : Z :=
  match led_at (leds (of_keymap s)) idx with
  | None => -1
  | Some (_, m) =>
      if Z.land (Z.lor (base s) (Z.lor (latch s) (lock s))) m =? 0
      then 0 else 1
  end.

Definition xkb : XkbCommon :=
  {| struct_xkb_keymap := keymap_t;
     struct_xkb_state := state_t;
     xkb_state_new := state_new;
     xkb_map_led_get_index := led_get_index;
     xkb_map_mod_get_index := mod_get_index;
     xkb_keymap_get_as_string := text;
     xkb_state_update_key := update_key;
     xkb_state_update_mask := update_mask;
     xkb_state_serialize_mods := serialize_mods;
     xkb_state_serialize_layout := serialize_layout;
     xkb_state_led_index_is_active := led_index_is_active |}.

(** *** Sample keymaps and keyboards *)

(** The eight standard modifiers; Shift on the xkb keycode 58 (raw 50),
    Control on 45 (raw 37), Caps Lock LED on the Lock modifier.  It has no
    Scroll Lock LED. *)
Definition keymap_A : keymap_t :=
  {| mods := mod_names;
     leds := [("Caps Lock", 2); ("Num Lock", 16)]%string;
     keys := [(58, 1); (45, 4)];
     text := Some "xkb_keymap { A };"%string;
     state_alloc := true |}.

(** A layout with Control before Shift, and Shift on the raw keycode 37. *)
Definition keymap_B : keymap_t :=
  {| mods := ["Control"; "Shift"; "Lock"]%string;
     leds := [("Num Lock", 0); ("Caps Lock", 4); ("Scroll Lock", 0)]%string;
     keys := [(45, 2)];
     text := Some "xkb_keymap { B };"%string;
     state_alloc := true |}.

(** [keymap_B] when the library cannot allocate a state for it. *)
Definition keymap_B_no_state : keymap_t :=
  {| mods := mods keymap_B; leds := leds keymap_B; keys := keys keymap_B;
     text := text keymap_B; state_alloc := false |}.

(** [keymap_B] when the library cannot serialize it. *)
Definition keymap_B_no_text : keymap_t :=
  {| mods := mods keymap_B; leds := leds keymap_B; keys := keys keymap_B;
     text := None; state_alloc := true |}.

Definition backend : wlr_keyboard_impl :=
  {| destroy := true; led_update := true |}.

(** The keyboard an operation leaves behind ([kb] itself if it aborts). *)
Definition after (m : @M xkb unit) (kb : @wlr_keyboard xkb)
    : @wlr_keyboard xkb :=
  match @run xkb unit m kb with
  | Some (kb', _) => kb'
  | None => kb
  end.

Definition trace_of (m : @M xkb unit) (kb : @wlr_keyboard xkb)
    : list (@effect xkb) :=
  match @run xkb unit m kb with
  | Some (_, t) => t
  | None => []
  end.

Definition kb_init : @wlr_keyboard xkb :=
  after (@wlr_keyboard_init xkb (Some backend)) (@zeroed xkb).

Definition kb_A : @wlr_keyboard xkb :=
  after (@wlr_keyboard_set_keymap xkb keymap_A) kb_init.

Definition press (k : Z) : wlr_event_keyboard_key :=
  {| time_msec := 0; keycode := k; update_state := true;
     state := WLR_KEY_PRESSED |}.

Definition release (k : Z) : wlr_event_keyboard_key :=
  {| time_msec := 0; keycode := k; update_state := true;
     state := WLR_KEY_RELEASED |}.

(** [kb_A] with the raw keycodes 50 and 37 held. *)
Definition kb_A_held : @wlr_keyboard xkb :=
  after (@wlr_keyboard_notify_key xkb (press 37))
    (after (@wlr_keyboard_notify_key xkb (press 50)) kb_A).

(** [kb_A_held] after the swap to [keymap_B]. *)
Definition kb_B : @wlr_keyboard xkb :=
  after (@wlr_keyboard_set_keymap xkb keymap_B) kb_A_held.

(** A short sequence of key events with repeated presses and releases. *)
Definition key_events : list wlr_event_keyboard_key :=
  [press 50; press 50; release 37; press 37; release 50; release 50].

(** Presses of the raw keycodes 0 to 32: one more than the capacity. *)
Definition presses_33 : list wlr_event_keyboard_key :=
  map (fun n => press (Z.of_nat n)) (seq 0 33).

End Ref.

(** ** Specification-level notions *)

(** [held evs k]: in the chronological sequence [evs] the last event on the
    keycode [k] is a press. *)
Definition held_step (k : Z) (h : bool) (e : wlr_event_keyboard_key) : bool :=
  if keycode e =? k then
    match state e with WLR_KEY_PRESSED => true | WLR_KEY_RELEASED => false end
  else h.

Definition held (evs : list wlr_event_keyboard_key) (k : Z) : bool :=
  fold_left (held_step k) evs false.

(** The distinct keycodes pressed at the end of [evs]. *)
Definition pressed_keycodes (evs : list wlr_event_keyboard_key) : list Z :=
  nodup Z.eq_dec (filter (held evs) (map keycode evs)).

(** At no point of [evs] are more than the capacity of keycodes pressed. *)
Fixpoint within_capacity_upto (evs : list wlr_event_keyboard_key) (n : nat)
    : bool :=
  (List.length (pressed_keycodes (firstn n evs)) <=? WLR_KEYBOARD_KEYS_CAP)%nat
  && match n with
     | O => true
     | S n' => within_capacity_upto evs n'
     end.

Definition within_capacity (evs : list wlr_event_keyboard_key) : bool :=
  within_capacity_upto evs (List.length evs).

(** The same bound on every prefix, as a proposition. *)
Definition never_over_capacity (evs : list wlr_event_keyboard_key) : Prop :=
  forall n,
    (List.length (pressed_keycodes (firstn n evs)) <=
     WLR_KEYBOARD_KEYS_CAP)%nat.

(** What the key set satisfies after the events [evs], from an empty set:
    it is within capacity, has no duplicate, holds only pressed keycodes,
    and holds all of them as long as the capacity was never exceeded. *)
Definition key_set_inv (evs : list wlr_event_keyboard_key) (ks : list Z)
    : Prop :=
  (List.length ks <= WLR_KEYBOARD_KEYS_CAP)%nat /\
  NoDup ks /\
  (forall k, In k ks -> held evs k = true) /\
  (never_over_capacity evs -> forall k, held evs k = true -> In k ks).

Section Notions.
Context `{XkbCommon}.

(** The key bookkeeping of a sequence of key events. *)
Fixpoint key_updates (evs : list wlr_event_keyboard_key) (kb : wlr_keyboard)
    : option wlr_keyboard :=
  match evs with
  | [] => Some kb
  | e :: evs' =>
      match run (keyboard_key_update e) kb with
      | Some (kb', _) => key_updates evs' kb'
      | None => None
      end
  end.

(** Every entry of the modifier table is absent or a bit position of a
    32-bit mask. *)
Definition mod_indexes_ok (kb : wlr_keyboard) : Prop :=
  List.length (mod_indexes kb) = WLR_MODIFIER_COUNT /\
  Forall (fun idx => idx = XKB_MOD_INVALID \/ 0 <= idx < 32) (mod_indexes kb).

(** Both index tables as [wlr_keyboard_set_keymap] derives them from a
    keymap. *)
Definition tables_of (km : struct_xkb_keymap) : list Z * list Z :=
  (map (xkb_map_led_get_index km) led_names,
   map (xkb_map_mod_get_index km) mod_names).

Definition tables (kb : wlr_keyboard) : list Z * list Z :=
  (led_indexes kb, mod_indexes kb).

(** What the library's mask update leaves in the state is fixed by the
    arguments: applying it a second time with the same arguments changes
    none of the serialized values. *)
Definition update_mask_settles : Prop :=
  forall st d l k g,
    serialized (xkb_state_update_mask
                  (xkb_state_update_mask st d l k 0 0 g) d l k 0 0 g) =
    serialized (xkb_state_update_mask st d l k 0 0 g).

(** Among the states reached from [st0] by key-down events: pressing the
    key [k] puts the modifier [name] of the keymap [km] in the depressed
    mask. *)
Definition contributes (st0 : struct_xkb_state) (km : struct_xkb_keymap)
    (k : Z) (name : string) : Prop :=
  forall ks,
    Z.testbit (xkb_state_serialize_mods
                 (xkb_state_update_key (replay_keys st0 ks) (u32 (k + 8))
                    XKB_KEY_DOWN)
                 XKB_STATE_MODS_DEPRESSED)
              (xkb_map_mod_get_index km name) = true.

(** Among the same states: pressing the key [k] leaves the depressed mask
    as it was. *)
Definition contributes_nothing (st0 : struct_xkb_state) (k : Z) : Prop :=
  forall ks,
    xkb_state_serialize_mods
      (xkb_state_update_key (replay_keys st0 ks) (u32 (k + 8)) XKB_KEY_DOWN)
      XKB_STATE_MODS_DEPRESSED =
    xkb_state_serialize_mods (replay_keys st0 ks) XKB_STATE_MODS_DEPRESSED.

(** *** The results of the operations, in closed form *)

Definition modifiers_differ (a b : wlr_keyboard_modifiers) : Prop :=
  depressed a <> depressed b \/ latched a <> latched b \/
  locked a <> locked b \/ group a <> group b.

Definition has_led_hook (kb : wlr_keyboard) : bool :=
  match impl kb with
  | Some i => led_update i
  | None => false
  end.

(** The key set after the bookkeeping of one event. *)
Definition keycodes_after (e : wlr_event_keyboard_key) (values : list Z)
    : list Z :=
  match state e with
  | WLR_KEY_PRESSED => set_add values WLR_KEYBOARD_KEYS_CAP (keycode e)
  | WLR_KEY_RELEASED => set_remove values WLR_KEYBOARD_KEYS_CAP (keycode e)
  end.

(** The translation state after the key event: advanced only when the
    event asks for it. *)
Definition state_after_key (e : wlr_event_keyboard_key)
    (st : struct_xkb_state) : struct_xkb_state :=
  if update_state e then
    xkb_state_update_key st (u32 (keycode e + 8))
      match state e with
      | WLR_KEY_PRESSED => XKB_KEY_DOWN
      | WLR_KEY_RELEASED => XKB_KEY_UP
      end
  else st.

(** The tail shared by the two notification entry points: recompute the
    modifiers, emit the signal on a change, push the LEDs. *)
Definition after_update (kb : wlr_keyboard) (st : struct_xkb_state)
    : wlr_keyboard * list effect :=
  let kb1 := with_xkb_state (Some st) kb in
  let push :=
    if has_led_hook kb
    then [impl_led_update (led_mask st (led_indexes kb))] else [] in
  if modifiers_eqb (serialized st) (modifiers kb)
  then (kb1, push)
  else (with_modifiers (serialized st) kb1,
        wlr_signal_emit_safe events_modifiers :: push).

(** The keyboard after a successful keymap swap. *)
Definition swapped (kb : wlr_keyboard) (km : struct_xkb_keymap)
    (st : struct_xkb_state) (s : string) : wlr_keyboard :=
  {| impl := impl kb;
     keymap_string := Some s;
     keymap_size := Z.of_nat (String.length s) + 1;
     keymap := Some km;
     xkb_state := Some (replay_keys st (keycodes kb));
     led_indexes := map (xkb_map_led_get_index km) led_names;
     mod_indexes := map (xkb_map_mod_get_index km) mod_names;
     keycodes := keycodes kb;
     modifiers := serialized (replay_keys st (keycodes kb));
     repeat_info := repeat_info kb |}.

(** The keyboard after the code at [err], with the index tables as they
    were when the failure was met. *)
Definition rolled_back (kb : wlr_keyboard) (t : list Z * list Z)
    : wlr_keyboard :=
  {| impl := impl kb;
     keymap_string := None;
     keymap_size := keymap_size kb;
     keymap := None;
     xkb_state := None;
     led_indexes := fst t;
     mod_indexes := snd t;
     keycodes := keycodes kb;
     modifiers := modifiers kb;
     repeat_info := repeat_info kb |}.

(** A keymap swap succeeds when both fallible library calls do. *)
Definition set_keymap_fails (km : struct_xkb_keymap) : Prop :=
  xkb_state_new km = None \/ xkb_keymap_get_as_string km = None.

(** The test of [wlr_keyboard_get_modifiers] on the [i]-th standard
    modifier, and the test of [keyboard_led_update] on the [i]-th LED. *)
Definition mod_active (kb : wlr_keyboard) (i : nat) : bool :=
  let mask := Z.lor (depressed (modifiers kb)) (latched (modifiers kb)) in
  let idx := nth i (mod_indexes kb) 0 in
  if idx =? XKB_MOD_INVALID then false
  else negb (Z.land mask (u32 (Z.shiftl 1 idx)) =? 0).

Definition led_active (st : struct_xkb_state) (indexes : list Z) (i : nat)
    : bool :=
  negb (xkb_state_led_index_is_active st (nth i indexes 0) =? 0).

End Notions.

(** ** Sessions: the calls a keyboard receives over its life *)

Section Api.
Context `{XkbCommon}.

Inductive api_call :=
| call_notify_key (e : wlr_event_keyboard_key)
| call_notify_modifiers (d l k g : Z)
| call_set_keymap (km : struct_xkb_keymap)
| call_set_repeat_info (r dl : Z).

Definition api_run (c : api_call) : M unit :=
  match c with
  | call_notify_key e => wlr_keyboard_notify_key e
  | call_notify_modifiers d l k g => wlr_keyboard_notify_modifiers d l k g
  | call_set_keymap km => wlr_keyboard_set_keymap km
  | call_set_repeat_info r dl => wlr_keyboard_set_repeat_info r dl
  end.

(** The calls in order, each on the keyboard the previous one left; the
    traces are concatenated.  An aborted call aborts the rest. *)
Fixpoint api_runs (cs : list api_call) (kb : wlr_keyboard)
    : option (wlr_keyboard * list effect) :=
  match cs with
  | [] => Some (kb, [])
  | c :: cs' =>
      match run (api_run c) kb with
      | Some (kb1, t1) =>
          match api_runs cs' kb1 with
          | Some (kb2, t2) => Some (kb2, t1 ++ t2)
          | None => None
          end
      | None => None
      end
  end.

(** A zero-filled keyboard is initialised, then receives the calls. *)
Definition session (i : option wlr_keyboard_impl) (cs : list api_call)
    : option (wlr_keyboard * list effect) :=
  match run (wlr_keyboard_init i) zeroed with
  | Some (kb0, t0) =>
      match api_runs cs kb0 with
      | Some (kb, t) => Some (kb, t0 ++ t)
      | None => None
      end
  | None => None
  end.

(** What every call keeps: the key set is within capacity and free of
    duplicates; with a translation state, the stored modifiers are its
    serialization, and the keymap, its text, the size of the text and both
    index tables are those of one keymap; without, there is no keymap and
    no text. *)
Definition session_inv (kb : wlr_keyboard) : Prop :=
  (num_keycodes kb <= WLR_KEYBOARD_KEYS_CAP)%nat /\
  NoDup (keycodes kb) /\
  match xkb_state kb with
  | Some st =>
      modifiers kb = serialized st /\
      exists km s,
        keymap kb = Some km /\ keymap_string kb = Some s /\
        keymap_size kb = Z.of_nat (String.length s) + 1 /\
        tables kb = tables_of km
  | None => keymap kb = None /\ keymap_string kb = None
  end.

(** The keyboard's own reference on a keymap, followed along a trace: a
    reference is taken only when none is held, a release names what is
    held ([NULL] when nothing is), and [final] is what is held at the
    end. *)
Fixpoint keymap_ref_run (held : option struct_xkb_keymap)
    (t : list effect) (final : option struct_xkb_keymap) : Prop :=
  match t with
  | [] => held = final
  | xkb_keymap_ref km :: t' =>
      held = None /\ keymap_ref_run (Some km) t' final
  | xkb_keymap_unref o :: t' => o = held /\ keymap_ref_run None t' final
  | _ :: t' => keymap_ref_run held t' final
  end.

(** *** wlr_keyboard_destroy *)

(** The effects of the teardown: those of the core, the backend's destroy
    hook, and the default release ([wl_list_remove] on the listeners of
    the key signal, then [free] of the keyboard). *)
Inductive teardown_effect :=
| in_core (e : effect)
| impl_destroy
| wl_list_remove_key_listener_list
| free_kb.

Definition wlr_keyboard_destroy (kb : option wlr_keyboard)
    : list teardown_effect :=
  match kb with
  | None => []
  | Some kb =>
      [in_core (wlr_signal_emit_safe events_destroy);
       in_core (xkb_state_unref (xkb_state kb));
       in_core (xkb_keymap_unref (keymap kb));
       in_core (free (keymap_string kb))] ++
      match impl kb with
      | Some i =>
          if destroy i then [impl_destroy]
          else [wl_list_remove_key_listener_list; free_kb]
      | None => [wl_list_remove_key_listener_list; free_kb]
      end
  end.

Definition core_effects (t : list teardown_effect) : list effect :=
  flat_map (fun e => match e with in_core e => [e] | _ => [] end) t.

(** A whole life: a session, then the teardown of the keyboard it left. *)
Definition life (i : option wlr_keyboard_impl) (cs : list api_call)
    : option (list effect) :=
  match session i cs with
  | Some (kb, t) => Some (t ++ core_effects (wlr_keyboard_destroy (Some kb)))
  | None => None
  end.

End Api.

(** Sample sessions on the reference implementation. *)
Module RefApi.

Definition calls : list (@api_call Ref.xkb) :=
  [@call_notify_key Ref.xkb (Ref.press 50);
   @call_set_keymap Ref.xkb Ref.keymap_A;
   @call_notify_key Ref.xkb (Ref.press 37);
   @call_notify_modifiers Ref.xkb 0 0 2 0;
   @call_set_keymap Ref.xkb Ref.keymap_B_no_text;
   @call_notify_key Ref.xkb (Ref.release 50);
   @call_set_keymap Ref.xkb Ref.keymap_B;
   @call_set_repeat_info Ref.xkb 30 600].

(** A backend that supplies neither hook. *)
Definition no_hooks : wlr_keyboard_impl :=
  {| destroy := false; led_update := false |}.

(** [kb_A_held] with Caps Lock locked by a modifier injection. *)
Definition kb_A_locked : @wlr_keyboard Ref.xkb :=
  Ref.after (@wlr_keyboard_notify_modifiers Ref.xkb 5 0 2 0) Ref.kb_A_held.

(** A key event that does not advance the translation state. *)
Definition press_quiet (k : Z) : wlr_event_keyboard_key :=
  {| time_msec := 0; keycode := k; update_state := false;
     state := WLR_KEY_PRESSED |}.


(** [kb_A_held] after a swap to a keymap that cannot be serialized: no
    keymap is loaded. *)
Definition kb_no_keymap : @wlr_keyboard Ref.xkb :=
  Ref.after (@wlr_keyboard_set_keymap Ref.xkb Ref.keymap_B_no_text)
    Ref.kb_A_held.

End RefApi.

(** ** Equations of the operations *)

Lemma modifiers_eqb_true (a b : wlr_keyboard_modifiers) :
  modifiers_eqb a b = true -> a = b.
Proof.
  destruct a, b; unfold modifiers_eqb; cbn.
  rewrite !andb_true_iff, !Z.eqb_eq.
  intros [[[-> ->] ->] ->]. reflexivity.
Qed.

Lemma modifiers_eqb_false (a b : wlr_keyboard_modifiers) :
  modifiers_eqb a b = false <-> modifiers_differ a b.
Proof.
  unfold modifiers_eqb, modifiers_differ.
  rewrite !andb_false_iff, !Z.eqb_neq. tauto.
Qed.

Lemma modifiers_eqb_refl (a : wlr_keyboard_modifiers) :
  modifiers_eqb a a = true.
Proof.
  unfold modifiers_eqb. rewrite !Z.eqb_refl. reflexivity.
Qed.

Lemma set_add_length (values : list Z) (cap : nat) (target : Z) :
  (List.length values <= cap)%nat ->
  (List.length (set_add values cap target) <= cap)%nat.
Proof.
  intros Hle. unfold set_add.
  destruct (existsb (Z.eqb target) values); [exact Hle|].
  destruct (Nat.ltb_spec (List.length values) cap) as [Hlt|_]; [|exact Hle].
  rewrite length_app. cbn. lia.
Qed.

Lemma set_remove_length (values : list Z) (cap : nat) (target : Z) :
  (List.length (set_remove values cap target) <= List.length values)%nat.
Proof.
  unfold set_remove. induction values as [|v values IH]; cbn; [lia|].
  destruct (Z.eq_dec target v); cbn; lia.
Qed.

Section Equations.
Context `{XkbCommon}.

Lemma keycodes_after_length e values :
  (List.length values <= WLR_KEYBOARD_KEYS_CAP)%nat ->
  (List.length (keycodes_after e values) <= WLR_KEYBOARD_KEYS_CAP)%nat.
Proof.
  intros Hle. unfold keycodes_after. destruct (state e).
  - pose proof (set_remove_length values WLR_KEYBOARD_KEYS_CAP (keycode e)).
    lia.
  - apply set_add_length, Hle.
Qed.

(** The assertion of [keyboard_key_update] holds whenever the key set was
    within its capacity before. *)
Lemma keyboard_key_update_eq e kb :
  (num_keycodes kb <= WLR_KEYBOARD_KEYS_CAP)%nat ->
  keyboard_key_update e kb =
  Some (tt, with_keycodes (keycodes_after e (keycodes kb)) kb, []).
Proof.
  intros Hle. pose proof (keycodes_after_length e _ Hle) as Hle'.
  apply Nat.leb_le in Hle'.
  unfold keyboard_key_update, keycodes_after, num_keycodes, bind, modify,
    ret, get, assert in *.
  destruct (state e); cbn in *; rewrite Hle'; cbn.
  - reflexivity.
  - reflexivity.
Qed.

Lemma keyboard_modifier_update_eq kb st :
  xkb_state kb = Some st ->
  keyboard_modifier_update kb =
  if modifiers_eqb (serialized st) (modifiers kb)
  then Some (false, kb, [])
  else Some (true, with_modifiers (serialized st) kb, []).
Proof.
  intros Hst. unfold keyboard_modifier_update, bind, get, modify, ret.
  cbn. rewrite Hst.
  destruct (modifiers_eqb (serialized st) (modifiers kb)); reflexivity.
Qed.

Lemma keyboard_led_update_eq kb st :
  xkb_state kb = Some st ->
  keyboard_led_update kb =
  Some (tt, kb,
        if has_led_hook kb
        then [impl_led_update (led_mask st (led_indexes kb))] else []).
Proof.
  intros Hst.
  unfold keyboard_led_update, wlr_keyboard_led_update, has_led_hook, bind,
    get, emit, ret.
  cbn. rewrite Hst.
  destruct (impl kb) as [i|]; [destruct (led_update i)|]; reflexivity.
Qed.

Lemma wlr_keyboard_notify_modifiers_eq kb st d l k g :
  xkb_state kb = Some st ->
  run (wlr_keyboard_notify_modifiers d l k g) kb =
  Some (after_update kb (xkb_state_update_mask st d l k 0 0 g)).
Proof.
  intros Hst.
  unfold run, wlr_keyboard_notify_modifiers, bind at 1 2 3 4, get, modify.
  rewrite Hst. cbn beta iota.
  erewrite keyboard_modifier_update_eq by reflexivity.
  unfold after_update. cbn [modifiers with_xkb_state].
  destruct (modifiers_eqb _ (modifiers kb)); unfold bind, emit, ret;
    (erewrite keyboard_led_update_eq by reflexivity); reflexivity.
Qed.

Lemma with_xkb_state_same kb st :
  xkb_state kb = Some st -> with_xkb_state (Some st) kb = kb.
Proof.
  destruct kb; cbn. intros ->. reflexivity.
Qed.

Lemma wlr_keyboard_notify_key_eq kb st e :
  xkb_state kb = Some st ->
  (num_keycodes kb <= WLR_KEYBOARD_KEYS_CAP)%nat ->
  run (wlr_keyboard_notify_key e) kb =
  let (kb', t) :=
    after_update (with_keycodes (keycodes_after e (keycodes kb)) kb)
      (state_after_key e st) in
  Some (kb', wlr_signal_emit_safe (events_key e) :: t).
Proof.
  intros Hst Hle.
  unfold run, wlr_keyboard_notify_key, bind at 1 2 3.
  rewrite (keyboard_key_update_eq e kb Hle).
  unfold emit, get. cbn [xkb_state with_keycodes]. rewrite Hst.
  unfold after_update, state_after_key.
  cbn [modifiers with_keycodes has_led_hook impl led_indexes].
  set (kb0 := with_keycodes (keycodes_after e (keycodes kb)) kb).
  assert (Hst0 : xkb_state kb0 = Some st) by exact Hst.
  destruct (update_state e).
  - unfold bind at 1 2, modify.
    erewrite keyboard_modifier_update_eq by reflexivity.
    cbn [modifiers with_xkb_state with_keycodes kb0].
    destruct (modifiers_eqb _ (modifiers kb)); unfold bind, emit, ret;
      (erewrite keyboard_led_update_eq by reflexivity); reflexivity.
  - rewrite (with_xkb_state_same kb0 st Hst0).
    unfold bind at 1 2, ret at 1.
    rewrite (keyboard_modifier_update_eq kb0 st Hst0).
    cbn [modifiers with_keycodes kb0].
    destruct (modifiers_eqb _ (modifiers kb)); unfold bind, emit, ret;
      (erewrite keyboard_led_update_eq by exact Hst0); reflexivity.
Qed.

(** Keymap or not, a key event on a key set within capacity is processed
    to the end: the key set is updated within capacity and the key signal
    comes first. *)
Lemma wlr_keyboard_notify_key_total kb e :
  (num_keycodes kb <= WLR_KEYBOARD_KEYS_CAP)%nat ->
  exists kb' t,
    run (wlr_keyboard_notify_key e) kb =
    Some (kb', wlr_signal_emit_safe (events_key e) :: t) /\
    keycodes kb' = keycodes_after e (keycodes kb) /\
    (num_keycodes kb' <= WLR_KEYBOARD_KEYS_CAP)%nat.
Proof.
  intros Hle. pose proof (keycodes_after_length e _ Hle) as Hle'.
  destruct (xkb_state kb) as [st|] eqn:Hst.
  - rewrite (wlr_keyboard_notify_key_eq kb st e Hst Hle).
    destruct (after_update _ _) as [kb' t] eqn:E.
    exists kb', t. split; [reflexivity|].
    assert (Hk : keycodes kb' = keycodes_after e (keycodes kb)).
    { change kb' with (fst (kb', t)). rewrite <- E.
      unfold after_update. destruct (modifiers_eqb _ _); reflexivity. }
    unfold num_keycodes. rewrite Hk. split; [reflexivity|exact Hle'].
  - exists (with_keycodes (keycodes_after e (keycodes kb)) kb), [].
    unfold run, wlr_keyboard_notify_key, bind at 1 2 3.
    rewrite (keyboard_key_update_eq e kb Hle).
    unfold emit, get. cbn [xkb_state with_keycodes]. rewrite Hst.
    split; [reflexivity|]. split; [reflexivity|exact Hle'].
Qed.

Lemma wlr_keyboard_set_keymap_ok kb km st s :
  xkb_state_new km = Some st ->
  xkb_keymap_get_as_string km = Some s ->
  run (wlr_keyboard_set_keymap km) kb =
  Some (swapped kb km st s,
        [xkb_keymap_unref (keymap kb); xkb_keymap_ref km;
         xkb_state_unref (xkb_state kb); free (keymap_string kb);
         wlr_signal_emit_safe events_keymap]).
Proof.
  intros Hst Hs.
  unfold run, wlr_keyboard_set_keymap. rewrite Hst, Hs.
  unfold bind at 1 2 3 4 5 6 7 8 9, get, emit, modify.
  cbn [app keymap_string keycodes with_keymap with_xkb_state
       with_led_indexes with_mod_indexes].
  unfold bind at 1 2 3 4 5.
  erewrite keyboard_modifier_update_eq by reflexivity.
  cbn [modifiers with_keymap with_xkb_state with_led_indexes
       with_mod_indexes with_keymap_string with_keymap_size].
  destruct (modifiers_eqb _ (modifiers kb)) eqn:E.
  - apply modifiers_eqb_true in E. unfold swapped. rewrite E.
    reflexivity.
  - reflexivity.
Qed.

Lemma wlr_keyboard_set_keymap_no_state kb km :
  xkb_state_new km = None ->
  run (wlr_keyboard_set_keymap km) kb =
  Some (rolled_back kb (tables kb),
        [xkb_keymap_unref (keymap kb); xkb_keymap_ref km;
         xkb_state_unref (xkb_state kb);
         wlr_log "Failed to create XKB state";
         xkb_state_unref None; xkb_keymap_unref (Some km);
         free (keymap_string kb)]).
Proof.
  intros Hst.
  unfold run, wlr_keyboard_set_keymap. rewrite Hst.
  reflexivity.
Qed.

Lemma wlr_keyboard_set_keymap_no_text kb km st :
  xkb_state_new km = Some st ->
  xkb_keymap_get_as_string km = None ->
  run (wlr_keyboard_set_keymap km) kb =
  Some (rolled_back kb (tables_of km),
        [xkb_keymap_unref (keymap kb); xkb_keymap_ref km;
         xkb_state_unref (xkb_state kb);
         wlr_log "Failed to get string version of keymap";
         xkb_state_unref (Some st); xkb_keymap_unref (Some km);
         free (keymap_string kb)]).
Proof.
  intros Hst Hs.
  unfold run, wlr_keyboard_set_keymap. rewrite Hst, Hs.
  reflexivity.
Qed.

End Equations.

(** ** Notifications on key events and modifier injection *)

Section Notifications.
Context `{XkbCommon}.

Lemma after_update_signals kb st :
  signals (snd (after_update kb st)) =
  if modifiers_eqb (serialized st) (modifiers kb) then []
  else [events_modifiers].
Proof.
  unfold after_update.
  destruct (modifiers_eqb _ _), (has_led_hook kb); reflexivity.
Qed.

Lemma after_update_led_pushes kb st :
  led_pushes (snd (after_update kb st)) =
  if has_led_hook kb then [led_mask st (led_indexes kb)] else [].
Proof.
  unfold after_update.
  destruct (modifiers_eqb _ _), (has_led_hook kb); reflexivity.
Qed.

Lemma after_update_fields kb st :
  let kb' := fst (after_update kb st) in
  xkb_state kb' = Some st /\ modifiers kb' = serialized st /\
  has_led_hook kb' = has_led_hook kb /\ led_indexes kb' = led_indexes kb /\
  keycodes kb' = keycodes kb.
Proof.
  unfold after_update.
  destruct (modifiers_eqb _ _) eqn:E; cbn; repeat split.
  apply modifiers_eqb_true in E. symmetry. exact E.
Qed.

Lemma modifiers_signal_spec (a b : wlr_keyboard_modifiers) :
  In events_modifiers (if modifiers_eqb a b then [] else [events_modifiers])
  <-> modifiers_differ a b.
Proof.
  rewrite <- modifiers_eqb_false.
  destruct (modifiers_eqb a b); cbn; intuition congruence.
Qed.

(** C1. With a keymap loaded, [wlr_keyboard_notify_modifiers] and
    [wlr_keyboard_notify_key] emit the modifiers signal if and only if one
    of the four values serialized from the translation state differs from
    the value stored before the call.  When the library's mask update is
    settled by its arguments, a second [wlr_keyboard_notify_modifiers] with
    the same arguments emits no modifiers signal. *)
Theorem modifiers_signal_iff_changed kb st :
  xkb_state kb = Some st ->
  (forall d l k g,
     exists kb' t,
       run (wlr_keyboard_notify_modifiers d l k g) kb = Some (kb', t) /\
       (In events_modifiers (signals t) <->
        modifiers_differ
          (serialized (xkb_state_update_mask st d l k 0 0 g))
          (modifiers kb))) /\
  (forall e,
     (num_keycodes kb <= WLR_KEYBOARD_KEYS_CAP)%nat ->
     exists kb' t,
       run (wlr_keyboard_notify_key e) kb = Some (kb', t) /\
       (In events_modifiers (signals t) <->
        modifiers_differ (serialized (state_after_key e st))
          (modifiers kb))) /\
  (update_mask_settles ->
   forall d l k g,
     exists kb1 t1 kb2 t2,
       run (wlr_keyboard_notify_modifiers d l k g) kb = Some (kb1, t1) /\
       run (wlr_keyboard_notify_modifiers d l k g) kb1 = Some (kb2, t2) /\
       ~ In events_modifiers (signals t2)).
Proof.
  intros Hst. split; [|split].
  - intros d l k g.
    rewrite (wlr_keyboard_notify_modifiers_eq kb st d l k g Hst).
    destruct (after_update kb _) as [kb' t] eqn:E.
    exists kb', t. split; [reflexivity|].
    change t with (snd (kb', t)). rewrite <- E, after_update_signals.
    apply modifiers_signal_spec.
  - intros e Hcap.
    rewrite (wlr_keyboard_notify_key_eq kb st e Hst Hcap).
    destruct (after_update _ _) as [kb' t] eqn:E.
    exists kb', (wlr_signal_emit_safe (events_key e) :: t).
    split; [reflexivity|].
    change (signals (wlr_signal_emit_safe (events_key e) :: t))
      with (events_key e :: signals t).
    change t with (snd (kb', t)). rewrite <- E, after_update_signals.
    cbn [modifiers with_keycodes].
    rewrite <- modifiers_signal_spec. cbn [In].
    split; [intros [Hk|Hin]; [discriminate Hk|exact Hin]|auto].
  - intros Hsettle d l k g.
    set (st1 := xkb_state_update_mask st d l k 0 0 g).
    set (r1 := after_update kb st1).
    destruct (after_update_fields kb st1) as (Hs1 & Hm1 & _).
    fold r1 in Hs1, Hm1.
    set (r2 := after_update (fst r1) (xkb_state_update_mask st1 d l k 0 0 g)).
    exists (fst r1), (snd r1), (fst r2), (snd r2).
    rewrite <- !surjective_pairing.
    split; [exact (wlr_keyboard_notify_modifiers_eq kb st d l k g Hst)|].
    split; [exact (wlr_keyboard_notify_modifiers_eq _ st1 d l k g Hs1)|].
    unfold r2. rewrite after_update_signals, Hm1.
    unfold st1. rewrite Hsettle, modifiers_eqb_refl.
    intros [].
Qed.

End Notifications.

(** ** Bit masks assembled by a loop *)

Lemma testbit_shiftl_1 (i : nat) (j : Z) :
  Z.testbit (Z.shiftl 1 (Z.of_nat i)) j = (Z.of_nat i =? j).
Proof.
  rewrite Z.shiftl_1_l. apply Z.pow2_bits_eqb. lia.
Qed.

(** A loop that ORs [1 << i] into the accumulator for the [i] that pass a
    test sets exactly the bits of the passing [i]. *)
Lemma fold_or_testbit (step : Z -> nat -> Z) (hit : nat -> bool) :
  (forall acc i,
     step acc i = if hit i then Z.lor acc (Z.shiftl 1 (Z.of_nat i)) else acc) ->
  forall l acc j,
    Z.testbit (fold_left step l acc) j =
    Z.testbit acc j || existsb (fun i => hit i && (Z.of_nat i =? j)) l.
Proof.
  intros Hstep l. induction l as [|i l IH]; intros acc j; cbn.
  - rewrite orb_false_r. reflexivity.
  - rewrite IH, Hstep. destruct (hit i); cbn.
    + rewrite Z.lor_spec, testbit_shiftl_1, orb_assoc. reflexivity.
    + reflexivity.
Qed.

Lemma existsb_seq_pick (hit : nat -> bool) (a n j : nat) :
  (a <= j < a + n)%nat ->
  existsb (fun i => hit i && (Z.of_nat i =? Z.of_nat j)) (seq a n) = hit j.
Proof.
  intros Hj. apply eq_true_iff_eq. rewrite existsb_exists. split.
  - intros (i & _ & Hi). apply andb_true_iff in Hi as [Hh Hi].
    apply Z.eqb_eq, Nat2Z.inj in Hi. subst i. exact Hh.
  - intros Hh. exists j. split; [apply in_seq; lia|].
    rewrite Hh, Z.eqb_refl. reflexivity.
Qed.

Lemma existsb_seq_beyond (hit : nat -> bool) (n : nat) (j : Z) :
  Z.of_nat n <= j ->
  existsb (fun i => hit i && (Z.of_nat i =? j)) (seq 0 n) = false.
Proof.
  intros Hj. apply not_true_is_false. rewrite existsb_exists.
  intros (i & Hin & Hi). apply in_seq in Hin.
  apply andb_true_iff in Hi as [_ Hi]. apply Z.eqb_eq in Hi. lia.
Qed.

Lemma land_pow2_testbit (mask n : Z) :
  0 <= n -> negb (Z.land mask (2 ^ n) =? 0) = Z.testbit mask n.
Proof.
  intros Hn. destruct (Z.testbit mask n) eqn:E.
  - apply negb_true_iff, Z.eqb_neq. intros H0.
    assert (Hb : Z.testbit (Z.land mask (2 ^ n)) n = true).
    { rewrite Z.land_spec, E, Z.pow2_bits_eqb, Z.eqb_refl by exact Hn.
      reflexivity. }
    rewrite H0, Z.bits_0 in Hb. discriminate Hb.
  - apply negb_false_iff, Z.eqb_eq, Z.bits_inj'. intros m Hm.
    rewrite Z.land_spec, Z.bits_0, Z.pow2_bits_eqb by exact Hn.
    destruct (Z.eqb_spec n m) as [->|_].
    + rewrite E. reflexivity.
    + apply andb_false_r.
Qed.

Lemma u32_shiftl_1 (idx : Z) :
  0 <= idx < 32 -> u32 (Z.shiftl 1 idx) = 2 ^ idx.
Proof.
  intros Hidx. unfold u32. rewrite Z.shiftl_1_l.
  apply Z.mod_small. split; [apply Z.pow_nonneg; lia|].
  apply Z.pow_lt_mono_r; lia.
Qed.

Section Masks.
Context `{XkbCommon}.

Lemma wlr_keyboard_get_modifiers_testbit kb (i : nat) :
  (i < WLR_MODIFIER_COUNT)%nat ->
  Z.testbit (wlr_keyboard_get_modifiers kb) (Z.of_nat i) = mod_active kb i.
Proof.
  intros Hi. unfold wlr_keyboard_get_modifiers.
  rewrite (fold_or_testbit _ (mod_active kb)).
  - rewrite Z.bits_0. cbn [orb]. apply existsb_seq_pick. lia.
  - intros acc n. unfold modifiers_step, mod_active.
    destruct (_ =? XKB_MOD_INVALID); [reflexivity|].
    destruct (_ =? 0); reflexivity.
Qed.

Lemma wlr_keyboard_get_modifiers_high kb (j : Z) :
  Z.of_nat WLR_MODIFIER_COUNT <= j ->
  Z.testbit (wlr_keyboard_get_modifiers kb) j = false.
Proof.
  intros Hj. unfold wlr_keyboard_get_modifiers.
  rewrite (fold_or_testbit _ (mod_active kb)).
  - rewrite Z.bits_0. cbn [orb]. apply existsb_seq_beyond, Hj.
  - intros acc n. unfold modifiers_step, mod_active.
    destruct (_ =? XKB_MOD_INVALID); [reflexivity|].
    destruct (_ =? 0); reflexivity.
Qed.

Lemma mod_active_in_range kb (i : nat) :
  0 <= nth i (mod_indexes kb) 0 < 32 ->
  mod_active kb i =
  Z.testbit (Z.lor (depressed (modifiers kb)) (latched (modifiers kb)))
    (nth i (mod_indexes kb) 0).
Proof.
  intros Hidx. unfold mod_active.
  destruct (Z.eqb_spec (nth i (mod_indexes kb) 0) XKB_MOD_INVALID) as [E|_].
  - unfold XKB_MOD_INVALID in E. lia.
  - rewrite (u32_shiftl_1 _ Hidx). apply land_pow2_testbit. lia.
Qed.

Lemma led_mask_testbit st indexes (i : nat) :
  (i < WLR_LED_COUNT)%nat ->
  Z.testbit (led_mask st indexes) (Z.of_nat i) = led_active st indexes i.
Proof.
  intros Hi. unfold led_mask.
  rewrite (fold_or_testbit _ (led_active st indexes)).
  - rewrite Z.bits_0. cbn [orb]. apply existsb_seq_pick. lia.
  - intros acc n. unfold led_step, led_active.
    destruct (_ =? 0); reflexivity.
Qed.

End Masks.

(** ** The keymap swap *)

Section Swap.
Context `{XkbCommon}.

(** C3 (as the code has it).  When the translation state of the new keymap
    is constructed, both index tables are recomputed in full from the new
    keymap, also when the serialization fails afterwards.  When the
    construction fails the two tables are left as they were.  In no case is
    a table updated in part. *)
Theorem set_keymap_tables kb km :
  exists kb' t,
    run (wlr_keyboard_set_keymap km) kb = Some (kb', t) /\
    tables kb' =
    match xkb_state_new km with
    | Some _ => tables_of km
    | None => tables kb
    end.
Proof.
  destruct (xkb_state_new km) as [st|] eqn:Hst.
  - destruct (xkb_keymap_get_as_string km) as [s|] eqn:Hs.
    + eexists _, _.
      split; [apply (wlr_keyboard_set_keymap_ok kb km st s Hst Hs)|].
      reflexivity.
    + eexists _, _.
      split; [apply (wlr_keyboard_set_keymap_no_text kb km st Hst Hs)|].
      reflexivity.
  - eexists _, _.
    split; [apply (wlr_keyboard_set_keymap_no_state kb km Hst)|].
    reflexivity.
Qed.

(** C4. A failed keymap swap leaves no keymap, no translation state and no
    serialized keymap, emits no signal, and releases the reference it took
    on the new keymap: the reference counting of the call is the release of
    the previous keymap, one reference on the new keymap and its release. *)
Theorem set_keymap_failure_rolls_back kb km :
  set_keymap_fails km ->
  exists kb' t,
    run (wlr_keyboard_set_keymap km) kb = Some (kb', t) /\
    keymap kb' = None /\ xkb_state kb' = None /\ keymap_string kb' = None /\
    signals t = [] /\
    keymap_refs t =
    [xkb_keymap_unref (keymap kb); xkb_keymap_ref km;
     xkb_keymap_unref (Some km)].
Proof.
  intros Hfail.
  destruct (xkb_state_new km) as [st|] eqn:Hst.
  - destruct Hfail as [Hf|Hs]; [rewrite Hst in Hf; discriminate Hf|].
    eexists _, _.
    split; [apply (wlr_keyboard_set_keymap_no_text kb km st Hst Hs)|].
    repeat split.
  - eexists _, _.
    split; [apply (wlr_keyboard_set_keymap_no_state kb km Hst)|].
    repeat split.
Qed.

(** C5. A successful keymap swap emits the keymap signal exactly once,
    whether or not the modifiers recomputed at its end equal the stored
    ones. *)
Theorem set_keymap_emits_keymap_once kb km st s :
  xkb_state_new km = Some st ->
  xkb_keymap_get_as_string km = Some s ->
  exists kb' t,
    run (wlr_keyboard_set_keymap km) kb = Some (kb', t) /\
    filter is_keymap (signals t) = [events_keymap] /\
    (modifiers kb' = modifiers kb \/
     modifiers_differ (modifiers kb') (modifiers kb)).
Proof.
  intros Hst Hs. eexists _, _.
  split; [apply (wlr_keyboard_set_keymap_ok kb km st s Hst Hs)|].
  split; [reflexivity|].
  destruct (modifiers_eqb (modifiers (swapped kb km st s)) (modifiers kb))
    eqn:E.
  - left. apply modifiers_eqb_true, E.
  - right. apply modifiers_eqb_false, E.
Qed.

(** C10. A successful keymap swap emits no modifiers signal: its only
    signal is the keymap one, although the stored modifiers are replaced by
    those serialized after the replay of the held keys. *)
Theorem set_keymap_no_modifiers_signal kb km st s :
  xkb_state_new km = Some st ->
  xkb_keymap_get_as_string km = Some s ->
  exists kb' t,
    run (wlr_keyboard_set_keymap km) kb = Some (kb', t) /\
    signals t = [events_keymap] /\
    ~ In events_modifiers (signals t) /\
    modifiers kb' = serialized (replay_keys st (keycodes kb)).
Proof.
  intros Hst Hs. eexists _, _.
  split; [apply (wlr_keyboard_set_keymap_ok kb km st s Hst Hs)|].
  split; [reflexivity|]. split; [|reflexivity].
  cbn. intros [E|[]]. discriminate E.
Qed.

(** C6. After a successful keymap swap the translation state is the fresh
    state of the new keymap advanced by a key-down of every held keycode,
    and the stored modifiers are those serialized from it.  With two held
    keys, one contributing Shift in the new keymap and one contributing
    nothing, [wlr_keyboard_get_modifiers] then has the Shift bit. *)
Theorem set_keymap_replays_held_keys kb km st s :
  xkb_state_new km = Some st ->
  xkb_keymap_get_as_string km = Some s ->
  exists kb' t,
    run (wlr_keyboard_set_keymap km) kb = Some (kb', t) /\
    xkb_state kb' =
    Some (fold_left
            (fun s k => xkb_state_update_key s (u32 (k + 8)) XKB_KEY_DOWN)
            (keycodes kb) st) /\
    modifiers kb' = serialized (replay_keys st (keycodes kb)) /\
    (forall K1 K2,
       keycodes kb = [K1; K2] \/ keycodes kb = [K2; K1] ->
       contributes st km K1 "Shift" ->
       contributes_nothing st K2 ->
       0 <= xkb_map_mod_get_index km "Shift" < 32 ->
       Z.testbit (wlr_keyboard_get_modifiers kb') 0 = true).
Proof.
  intros Hst Hs. eexists _, _.
  split; [apply (wlr_keyboard_set_keymap_ok kb km st s Hst Hs)|].
  repeat split.
  intros K1 K2 Hheld Hshift Hnone Hidx.
  rewrite (wlr_keyboard_get_modifiers_testbit _ 0%nat)
    by (unfold WLR_MODIFIER_COUNT; lia).
  rewrite mod_active_in_range by exact Hidx.
  cbn [swapped mod_indexes modifiers map mod_names nth depressed serialized].
  rewrite Z.lor_spec. apply orb_true_iff. left.
  destruct Hheld as [-> | ->].
  - change (replay_keys st [K1; K2])
      with (xkb_state_update_key (replay_keys st [K1]) (u32 (K2 + 8))
              XKB_KEY_DOWN).
    rewrite (Hnone [K1]). apply (Hshift []).
  - apply (Hshift [K2]).
Qed.

End Swap.

(** ** The set of held keycodes *)

Lemma held_app evs e k :
  held (evs ++ [e]) k = held_step k (held evs k) e.
Proof.
  unfold held. rewrite fold_left_app. reflexivity.
Qed.

Lemma held_in_events evs k :
  held evs k = true -> In k (map keycode evs).
Proof.
  induction evs as [|e evs IH] using rev_ind; [discriminate|].
  rewrite held_app, map_app, in_app_iff. unfold held_step.
  destruct (Z.eqb_spec (keycode e) k) as [E|_].
  - intros _. right. left. exact E.
  - intros Hh. left. apply IH, Hh.
Qed.

Lemma pressed_keycodes_In evs k :
  In k (pressed_keycodes evs) <-> held evs k = true.
Proof.
  unfold pressed_keycodes. rewrite nodup_In, filter_In. split.
  - intros [_ Hh]. exact Hh.
  - intros Hh. split; [apply held_in_events, Hh|exact Hh].
Qed.

Lemma never_over_capacity_prefix evs e :
  never_over_capacity (evs ++ [e]) -> never_over_capacity evs.
Proof.
  intros Hcap n. destruct (Nat.le_gt_cases n (List.length evs)) as [Hn|Hn].
  - specialize (Hcap n). rewrite firstn_app in Hcap.
    replace (n - List.length evs)%nat with 0%nat in Hcap by lia.
    cbn [firstn] in Hcap. rewrite app_nil_r in Hcap. exact Hcap.
  - specialize (Hcap (List.length evs)).
    rewrite firstn_app, Nat.sub_diag, firstn_all in Hcap.
    cbn [firstn] in Hcap. rewrite app_nil_r in Hcap.
    rewrite firstn_all2 by lia. exact Hcap.
Qed.

Lemma within_capacity_upto_spec evs n :
  within_capacity_upto evs n = true ->
  forall m, (m <= n)%nat ->
    (List.length (pressed_keycodes (firstn m evs)) <=
     WLR_KEYBOARD_KEYS_CAP)%nat.
Proof.
  induction n as [|n IH]; cbn [within_capacity_upto];
    intros Hw m Hm; apply andb_true_iff in Hw as [Hhere Hrest].
  - replace m with 0%nat by lia. apply Nat.leb_le, Hhere.
  - destruct (Nat.eq_dec m (S n)) as [->|Hne].
    + apply Nat.leb_le, Hhere.
    + apply IH; [exact Hrest|lia].
Qed.

Lemma within_capacity_never_over evs :
  within_capacity evs = true -> never_over_capacity evs.
Proof.
  intros Hw n. destruct (Nat.le_gt_cases n (List.length evs)) as [Hn|Hn].
  - apply (within_capacity_upto_spec evs _ Hw n Hn).
  - rewrite firstn_all2 by lia. rewrite <- (firstn_all evs) at 1.
    apply (within_capacity_upto_spec evs _ Hw). lia.
Qed.

Lemma set_add_In values cap target k :
  In k values -> In k (set_add values cap target).
Proof.
  intros Hin. unfold set_add.
  destruct (existsb _ values); [exact Hin|].
  destruct (_ <? cap)%nat; [|exact Hin].
  apply in_app_iff. left. exact Hin.
Qed.

Lemma set_add_inv values cap target k :
  In k (set_add values cap target) -> In k values \/ k = target.
Proof.
  unfold set_add. destruct (existsb _ values); [auto|].
  destruct (_ <? cap)%nat; [|auto].
  rewrite in_app_iff. cbn. intuition auto.
Qed.

Lemma existsb_eqb_In (target : Z) values :
  existsb (Z.eqb target) values = true <-> In target values.
Proof.
  rewrite existsb_exists. split.
  - intros (x & Hin & Hx). apply Z.eqb_eq in Hx. subst x. exact Hin.
  - intros Hin. exists target. split; [exact Hin|apply Z.eqb_refl].
Qed.

Lemma set_add_NoDup values cap target :
  NoDup values -> NoDup (set_add values cap target).
Proof.
  intros Hnd. unfold set_add.
  destruct (existsb (Z.eqb target) values) eqn:E; [exact Hnd|].
  destruct (_ <? cap)%nat; [|exact Hnd].
  assert (Hnot : ~ In target values).
  { rewrite <- existsb_eqb_In, E. discriminate. }
  clear E. induction Hnd as [|x l Hx Hnd IH]; cbn.
  - constructor; [intros []|constructor].
  - constructor.
    + rewrite in_app_iff. cbn. cbn in Hnot. intuition auto.
    + apply IH. cbn in Hnot. intuition auto.
Qed.

Lemma set_remove_NoDup values cap target :
  NoDup values -> NoDup (set_remove values cap target).
Proof.
  unfold set_remove. induction 1 as [|x l Hx Hnd IH]; cbn.
  - constructor.
  - destruct (Z.eq_dec target x); [exact IH|].
    constructor; [|exact IH].
    intros Hin. apply in_remove in Hin as [Hin _]. auto.
Qed.

(** Pressing a held keycode and releasing one that is not held change
    nothing. *)
Lemma set_add_present values cap target :
  In target values -> set_add values cap target = values.
Proof.
  intros Hin. unfold set_add.
  apply existsb_eqb_In in Hin. rewrite Hin. reflexivity.
Qed.

Lemma set_remove_absent values cap target :
  ~ In target values -> set_remove values cap target = values.
Proof.
  apply notin_remove.
Qed.

(** One event keeps the invariant of the key set. *)
Lemma key_set_inv_step evs e ks :
  key_set_inv evs ks -> key_set_inv (evs ++ [e]) (keycodes_after e ks).
Proof.
  intros (Hlen & Hnd & Hsound & Hcomplete).
  split; [apply keycodes_after_length, Hlen|].
  unfold keycodes_after. destruct (state e) eqn:Hstate.
  - (* release *)
    split; [apply set_remove_NoDup, Hnd|]. split.
    + intros k Hin. apply in_remove in Hin as [Hin Hne].
      rewrite held_app. unfold held_step.
      destruct (Z.eqb_spec (keycode e) k) as [E|_]; [congruence|].
      apply Hsound, Hin.
    + intros Hcap k. rewrite held_app. unfold held_step.
      destruct (Z.eqb_spec (keycode e) k) as [E|Hne];
        [rewrite Hstate; discriminate|].
      intros Hh. apply in_in_remove; [congruence|].
      apply Hcomplete; [apply (never_over_capacity_prefix evs e), Hcap|].
      exact Hh.
  - (* press *)
    split; [apply set_add_NoDup, Hnd|]. split.
    + intros k Hin. rewrite held_app. unfold held_step. rewrite Hstate.
      destruct (Z.eqb_spec (keycode e) k) as [_|Hne]; [reflexivity|].
      apply set_add_inv in Hin as [Hin|E]; [apply Hsound, Hin|congruence].
    + intros Hcap k. rewrite held_app. unfold held_step. rewrite Hstate.
      pose proof (never_over_capacity_prefix evs e Hcap) as Hcap'.
      destruct (Z.eqb_spec (keycode e) k) as [<-|Hne].
      * intros _. unfold set_add.
        destruct (existsb (Z.eqb (keycode e)) ks) eqn:E;
          [apply existsb_eqb_In, E|].
        destruct (Nat.ltb_spec (List.length ks) WLR_KEYBOARD_KEYS_CAP)
          as [_|Hfull]; [apply in_app_iff; right; left; reflexivity|].
        exfalso.
        assert (Hnot : ~ In (keycode e) ks).
        { rewrite <- existsb_eqb_In, E. discriminate. }
        assert (Hnd' : NoDup (keycode e :: ks)) by (constructor; assumption).
        assert (Hincl : incl (keycode e :: ks)
                          (pressed_keycodes (evs ++ [e]))).
        { intros x Hx. apply pressed_keycodes_In.
          rewrite held_app. unfold held_step. rewrite Hstate.
          destruct (Z.eqb_spec (keycode e) x) as [_|Hne]; [reflexivity|].
          destruct Hx as [Hx|Hx]; [congruence|]. apply Hsound, Hx. }
        pose proof (NoDup_incl_length Hnd' Hincl) as Hlen'.
        specialize (Hcap (List.length (evs ++ [e]))).
        rewrite firstn_all in Hcap. cbn [List.length] in Hlen'. lia.
      * intros Hh. apply set_add_In, Hcomplete; assumption.
Qed.

Section KeySet.
Context `{XkbCommon}.

Lemma with_keycodes_same kb : with_keycodes (keycodes kb) kb = kb.
Proof.
  destruct kb. reflexivity.
Qed.

Lemma key_updates_inv evs :
  forall pre kb,
    key_set_inv pre (keycodes kb) ->
    exists kb',
      key_updates evs kb = Some kb' /\
      key_set_inv (pre ++ evs) (keycodes kb').
Proof.
  induction evs as [|e evs IH]; intros pre kb Hinv.
  - exists kb. rewrite app_nil_r. split; [reflexivity|exact Hinv].
  - cbn [key_updates]. unfold run.
    rewrite keyboard_key_update_eq by apply Hinv.
    destruct (IH (pre ++ [e])
                (with_keycodes (keycodes_after e (keycodes kb)) kb))
      as (kb' & Hrun & Hinv').
    { apply key_set_inv_step, Hinv. }
    exists kb'. split; [exact Hrun|].
    rewrite <- app_assoc in Hinv'. exact Hinv'.
Qed.

(** C9 (as the code has it).  From an empty key set, any sequence of key
    events leaves a key set within the capacity, without duplicates, that
    holds only keycodes that are pressed.  When at no point of the sequence
    more keycodes are pressed than the capacity, the key set holds exactly
    the pressed keycodes and its size is their number.  Pressing a keycode
    the set holds, or releasing one it does not hold, leaves the keyboard
    unchanged. *)
Theorem key_set_tracks_pressed kb evs :
  keycodes kb = [] ->
  exists kb',
    key_updates evs kb = Some kb' /\
    (num_keycodes kb' <= WLR_KEYBOARD_KEYS_CAP)%nat /\
    NoDup (keycodes kb') /\
    (forall k, In k (keycodes kb') -> held evs k = true) /\
    (within_capacity evs = true ->
     (forall k, In k (keycodes kb') <-> held evs k = true) /\
     num_keycodes kb' = List.length (pressed_keycodes evs)) /\
    (forall e,
       state e = WLR_KEY_PRESSED /\ In (keycode e) (keycodes kb') \/
       state e = WLR_KEY_RELEASED /\ ~ In (keycode e) (keycodes kb') ->
       run (keyboard_key_update e) kb' = Some (kb', [])).
Proof.
  intros Hempty.
  destruct (key_updates_inv evs [] kb) as (kb' & Hrun & Hinv).
  { rewrite Hempty. repeat split.
    - cbn. unfold WLR_KEYBOARD_KEYS_CAP. lia.
    - constructor.
    - intros k [].
    - intros _ k Hh. discriminate Hh. }
  cbn [app] in Hinv. destruct Hinv as (Hlen & Hnd & Hsound & Hcomplete).
  exists kb'. split; [exact Hrun|]. split; [exact Hlen|].
  split; [exact Hnd|]. split; [exact Hsound|]. split.
  - intros Hw. apply within_capacity_never_over in Hw.
    assert (Hiff : forall k, In k (keycodes kb') <-> held evs k = true).
    { intros k. split; [apply Hsound|apply Hcomplete, Hw]. }
    split; [exact Hiff|].
    apply Permutation_length, NoDup_Permutation;
      [exact Hnd|apply NoDup_nodup|].
    intros k. rewrite pressed_keycodes_In. apply Hiff.
  - intros e He. unfold run.
    rewrite keyboard_key_update_eq by exact Hlen.
    unfold keycodes_after.
    destruct He as [[-> Hin]|[-> Hnot]].
    + rewrite set_add_present by exact Hin.
      rewrite with_keycodes_same. reflexivity.
    + rewrite set_remove_absent by exact Hnot.
      rewrite with_keycodes_same. reflexivity.
Qed.

End KeySet.


(** ** The core on the reference implementation *)

Lemma ref_update_mask_settles : @update_mask_settles Ref.xkb.
Proof.
  intros st d l k g. reflexivity.
Qed.

Lemma ref_replay_keymap (st : Ref.state_t) (ks : list Z) :
  Ref.of_keymap (@replay_keys Ref.xkb st ks) = Ref.of_keymap st.
Proof.
  revert st. induction ks as [|k ks IH]; intros st; [reflexivity|].
  cbn [replay_keys fold_left]. unfold replay_keys in IH. rewrite IH.
  reflexivity.
Qed.

Lemma ref_run_after (m : @M Ref.xkb unit) kb kb' t :
  @run Ref.xkb unit m kb = Some (kb', t) ->
  Ref.after m kb = kb' /\ Ref.trace_of m kb = t.
Proof.
  intros Hrun. unfold Ref.after, Ref.trace_of. rewrite Hrun.
  split; reflexivity.
Qed.

(** In [keymap_B] the raw keycode 37 contributes Shift and the raw keycode
    50 contributes nothing. *)
Lemma ref_keymap_B_shift :
  @contributes Ref.xkb (Ref.fresh Ref.keymap_B) Ref.keymap_B 37 "Shift".
Proof.
  intros ks.
  change (Z.testbit
            (Ref.base (Ref.update_key
               (@replay_keys Ref.xkb (Ref.fresh Ref.keymap_B) ks)
               (u32 45) XKB_KEY_DOWN))
            (Ref.mod_get_index Ref.keymap_B "Shift") = true).
  unfold Ref.update_key, Ref.key_mask. cbn [Ref.base].
  rewrite ref_replay_keymap.
  change (Ref.mod_get_index Ref.keymap_B "Shift") with 1.
  change (u32 45) with 45.
  cbn [Ref.fresh Ref.of_keymap Ref.keys Ref.keymap_B find fst snd].
  change (45 =? 45) with true. cbn iota.
  rewrite Z.lor_spec. apply orb_true_r.
Qed.

Lemma ref_keymap_B_nothing :
  @contributes_nothing Ref.xkb (Ref.fresh Ref.keymap_B) 50.
Proof.
  intros ks.
  change (Ref.base (Ref.update_key
            (@replay_keys Ref.xkb (Ref.fresh Ref.keymap_B) ks)
            (u32 58) XKB_KEY_DOWN) =
          Ref.base (@replay_keys Ref.xkb (Ref.fresh Ref.keymap_B) ks)).
  unfold Ref.update_key, Ref.key_mask. cbn [Ref.base].
  rewrite ref_replay_keymap.
  change (u32 58) with 58.
  cbn [Ref.fresh Ref.of_keymap Ref.keys Ref.keymap_B find fst snd].
  change (45 =? 58) with false. cbn iota.
  apply Z.lor_0_r.
Qed.

(** C2.  The loop of [keyboard_led_update] makes no test of the index
    against [XKB_LED_INVALID] and takes the library's answer as a truth
    value.  [keymap_A] has no Scroll Lock LED; the library answers -1 for
    the absent index, and every push of the core has bit 2 set. *)
Theorem absent_led_index_reported_active :
  nth 2 (led_indexes Ref.kb_A) 0 = XKB_LED_INVALID /\
  (exists mask,
     led_pushes
       (Ref.trace_of (@wlr_keyboard_notify_modifiers Ref.xkb 0 0 0 0)
          Ref.kb_A) = [mask] /\
     Z.testbit mask 2 = true) /\
  (exists mask,
     led_pushes
       (Ref.trace_of (@wlr_keyboard_notify_key Ref.xkb (Ref.press 50))
          Ref.kb_A) = [mask] /\
     Z.testbit mask 2 = true).
Proof.
  split; [vm_compute; reflexivity|].
  split; exists 4; split; vm_compute; reflexivity.
Qed.

(** C3, as stated, fails.  With [keymap_A] loaded, a swap to a keymap whose
    translation state cannot be constructed leaves both index tables as
    [keymap_A] filled them: they are not those of the new keymap. *)
Lemma set_keymap_tables_stale_on_failure :
  let kb' :=
    Ref.after (@wlr_keyboard_set_keymap Ref.xkb Ref.keymap_B_no_state)
      Ref.kb_A in
  tables kb' <> @tables_of Ref.xkb Ref.keymap_B_no_state /\
  tables kb' = tables Ref.kb_A.
Proof.
  split; [vm_compute; discriminate|vm_compute; reflexivity].
Qed.

(** C9, as stated, fails.  After 33 presses of distinct keycodes 33
    keycodes are pressed and the key set holds 32. *)
Lemma key_set_smaller_than_pressed :
  keycodes Ref.kb_A = [] /\
  option_map num_keycodes (@key_updates Ref.xkb Ref.presses_33 Ref.kb_A) =
  Some 32%nat /\
  List.length (pressed_keycodes Ref.presses_33) = 33%nat.
Proof.
  repeat split; vm_compute; reflexivity.
Qed.

(** *** The theorems at concrete inputs *)

(** C1 at work: pressing Shift under [keymap_A] emits the modifiers signal;
    the second of two identical modifier injections emits none. *)
Lemma modifiers_signal_iff_changed_witness :
  xkb_state Ref.kb_A = Some (Ref.fresh Ref.keymap_A) /\
  (num_keycodes Ref.kb_A <= WLR_KEYBOARD_KEYS_CAP)%nat /\
  @update_mask_settles Ref.xkb /\
  In events_modifiers
    (signals
       (Ref.trace_of (@wlr_keyboard_notify_key Ref.xkb (Ref.press 50))
          Ref.kb_A)) /\
  ~ In events_modifiers
      (signals
         (Ref.trace_of (@wlr_keyboard_notify_modifiers Ref.xkb 1 0 0 0)
            (Ref.after (@wlr_keyboard_notify_modifiers Ref.xkb 1 0 0 0)
               Ref.kb_A))).
Proof.
  assert (Hst : xkb_state Ref.kb_A = Some (Ref.fresh Ref.keymap_A))
    by (vm_compute; reflexivity).
  assert (Hcap : (num_keycodes Ref.kb_A <= WLR_KEYBOARD_KEYS_CAP)%nat)
    by (vm_compute; lia).
  split; [exact Hst|]. split; [exact Hcap|].
  split; [exact ref_update_mask_settles|].
  destruct (@modifiers_signal_iff_changed Ref.xkb Ref.kb_A _ Hst)
    as (_ & Hkey & Hrepeat).
  split.
  - destruct (Hkey (Ref.press 50) Hcap) as (kb' & t & Hrun & Hiff).
    destruct (ref_run_after _ _ _ _ Hrun) as [_ E].
    rewrite E. apply Hiff. left. vm_compute. discriminate.
  - destruct (Hrepeat ref_update_mask_settles 1 0 0 0)
      as (kb1 & t1 & kb2 & t2 & H1 & H2 & Hno).
    destruct (ref_run_after _ _ _ _ H1) as [E1 _].
    destruct (ref_run_after _ _ _ _ H2) as [_ E2].
    rewrite E1, E2. exact Hno.
Defined.

(** C4 at work: a keymap that cannot be serialized. *)
Lemma set_keymap_failure_rolls_back_witness :
  @set_keymap_fails Ref.xkb Ref.keymap_B_no_text /\
  (let kb' :=
     Ref.after (@wlr_keyboard_set_keymap Ref.xkb Ref.keymap_B_no_text)
       Ref.kb_A in
   keymap kb' = None /\ xkb_state kb' = None /\ keymap_string kb' = None) /\
  signals
    (Ref.trace_of (@wlr_keyboard_set_keymap Ref.xkb Ref.keymap_B_no_text)
       Ref.kb_A) = [].
Proof.
  assert (Hfail : @set_keymap_fails Ref.xkb Ref.keymap_B_no_text)
    by (right; reflexivity).
  split; [exact Hfail|].
  destruct (@set_keymap_failure_rolls_back Ref.xkb Ref.kb_A _ Hfail)
    as (kb' & t & Hrun & Hkm & Hst & Hstr & Hsig & _).
  destruct (ref_run_after _ _ _ _ Hrun) as [E1 E2].
  rewrite E1, E2. repeat split; assumption.
Defined.

(** C5 at work: loading [keymap_A] again, with no key held, leaves the
    modifiers as they were and emits the keymap signal once. *)
Lemma set_keymap_emits_keymap_once_witness :
  xkb_state_new (XkbCommon := Ref.xkb) Ref.keymap_A =
    Some (Ref.fresh Ref.keymap_A) /\
  xkb_keymap_get_as_string (XkbCommon := Ref.xkb) Ref.keymap_A =
    Some "xkb_keymap { A };"%string /\
  filter is_keymap
    (signals
       (Ref.trace_of (@wlr_keyboard_set_keymap Ref.xkb Ref.keymap_A)
          Ref.kb_A)) = [events_keymap] /\
  modifiers (Ref.after (@wlr_keyboard_set_keymap Ref.xkb Ref.keymap_A)
               Ref.kb_A) = modifiers Ref.kb_A.
Proof.
  split; [reflexivity|]. split; [reflexivity|].
  destruct (@set_keymap_emits_keymap_once Ref.xkb Ref.kb_A Ref.keymap_A
              _ _ eq_refl eq_refl) as (kb' & t & Hrun & Honce & _).
  destruct (ref_run_after _ _ _ _ Hrun) as [_ E2].
  rewrite E2. split; [exact Honce|]. vm_compute. reflexivity.
Defined.

(** C10 at work: with two keys held, the swap to [keymap_B] changes the
    stored modifiers and emits the keymap signal only. *)
Lemma set_keymap_no_modifiers_signal_witness :
  xkb_state_new (XkbCommon := Ref.xkb) Ref.keymap_B =
    Some (Ref.fresh Ref.keymap_B) /\
  xkb_keymap_get_as_string (XkbCommon := Ref.xkb) Ref.keymap_B =
    Some "xkb_keymap { B };"%string /\
  signals
    (Ref.trace_of (@wlr_keyboard_set_keymap Ref.xkb Ref.keymap_B)
       Ref.kb_A_held) = [events_keymap] /\
  modifiers_differ (modifiers Ref.kb_B) (modifiers Ref.kb_A_held).
Proof.
  split; [reflexivity|]. split; [reflexivity|].
  destruct (@set_keymap_no_modifiers_signal Ref.xkb Ref.kb_A_held
              Ref.keymap_B _ _ eq_refl eq_refl)
    as (kb' & t & Hrun & Hsig & _).
  destruct (ref_run_after _ _ _ _ Hrun) as [_ E2].
  rewrite E2. split; [exact Hsig|].
  left. vm_compute. discriminate.
Defined.

(** C6 at work: raw keycodes 50 and 37 held, swap to [keymap_B], where 37
    contributes Shift and 50 nothing. *)
Lemma set_keymap_replays_held_keys_witness :
  keycodes Ref.kb_A_held = [50; 37] /\
  @contributes Ref.xkb (Ref.fresh Ref.keymap_B) Ref.keymap_B 37 "Shift" /\
  @contributes_nothing Ref.xkb (Ref.fresh Ref.keymap_B) 50 /\
  Z.testbit (@wlr_keyboard_get_modifiers Ref.xkb Ref.kb_B) 0 = true.
Proof.
  assert (Hheld : keycodes Ref.kb_A_held = [50; 37])
    by (vm_compute; reflexivity).
  split; [exact Hheld|]. split; [exact ref_keymap_B_shift|].
  split; [exact ref_keymap_B_nothing|].
  destruct (@set_keymap_replays_held_keys Ref.xkb Ref.kb_A_held
              Ref.keymap_B _ _ eq_refl eq_refl)
    as (kb' & t & Hrun & _ & _ & Hshift).
  destruct (ref_run_after _ _ _ _ Hrun) as [E1 _].
  unfold Ref.kb_B. rewrite E1.
  apply (Hshift 37 50).
  - right. exact Hheld.
  - exact ref_keymap_B_shift.
  - exact ref_keymap_B_nothing.
  - change (0 <= 1 < 32). lia.
Defined.

(** C9 at work on a sequence with repeated presses and releases. *)
Lemma key_set_tracks_pressed_witness :
  keycodes Ref.kb_A = [] /\
  within_capacity Ref.key_events = true /\
  exists kb',
    @key_updates Ref.xkb Ref.key_events Ref.kb_A = Some kb' /\
    num_keycodes kb' = List.length (pressed_keycodes Ref.key_events) /\
    (forall k, In k (keycodes kb') <-> held Ref.key_events k = true).
Proof.
  assert (Hempty : keycodes Ref.kb_A = []) by (vm_compute; reflexivity).
  assert (Hcap : within_capacity Ref.key_events = true)
    by (vm_compute; reflexivity).
  split; [exact Hempty|]. split; [exact Hcap|].
  destruct (@key_set_tracks_pressed Ref.xkb Ref.kb_A Ref.key_events Hempty)
    as (kb' & Hrun & _ & _ & _ & Hexact & _).
  exists kb'. split; [exact Hrun|].
  destruct (Hexact Hcap) as [Hiff Hsize]. split; assumption.
Defined.

(** ** Further properties of the operations *)

Lemma bits_above_clear_lt (a n : Z) :
  0 <= a -> 0 <= n -> (forall j, n <= j -> Z.testbit a j = false) ->
  a < 2 ^ n.
Proof.
  intros Ha Hn Hclear. destruct (Z.eq_dec a 0) as [->|Hne].
  - apply Z.pow_pos_nonneg; lia.
  - assert (Hpos : 0 < a) by lia.
    apply Z.log2_lt_pow2; [exact Hpos|].
    destruct (Z.lt_ge_cases (Z.log2 a) n) as [Hlt|Hge]; [exact Hlt|].
    pose proof (Z.bit_log2 a Hpos) as Hbit.
    rewrite (Hclear _ Hge) in Hbit. discriminate Hbit.
Qed.

Lemma fold_or_nonneg (step : Z -> nat -> Z) (hit : nat -> bool) :
  (forall acc i,
     step acc i = if hit i then Z.lor acc (Z.shiftl 1 (Z.of_nat i)) else acc) ->
  forall l acc, 0 <= acc -> 0 <= fold_left step l acc.
Proof.
  intros Hstep l. induction l as [|i l IH]; intros acc Hacc; cbn.
  - exact Hacc.
  - apply IH. rewrite Hstep. destruct (hit i); [|exact Hacc].
    apply Z.lor_nonneg. split; [exact Hacc|].
    apply Z.shiftl_nonneg. lia.
Qed.

Section Bounds.
Context `{XkbCommon}.

Lemma modifiers_step_or kb mask acc i :
  modifiers_step kb mask acc i =
  if (if nth i (mod_indexes kb) 0 =? XKB_MOD_INVALID then false
      else negb (Z.land mask (u32 (Z.shiftl 1 (nth i (mod_indexes kb) 0)))
                 =? 0))
  then Z.lor acc (Z.shiftl 1 (Z.of_nat i)) else acc.
Proof.
  unfold modifiers_step.
  destruct (_ =? XKB_MOD_INVALID); [reflexivity|].
  destruct (_ =? 0); reflexivity.
Qed.

Lemma led_step_or st indexes acc i :
  led_step st indexes acc i =
  if led_active st indexes i then Z.lor acc (Z.shiftl 1 (Z.of_nat i))
  else acc.
Proof.
  unfold led_step, led_active. destruct (_ =? 0); reflexivity.
Qed.

(** X15. [wlr_keyboard_get_modifiers] returns a value of 8 bits, and 0 when
    neither a depressed nor a latched modifier is stored, whatever is
    locked.  Only the bits [1 << i] for [i] below 8 are ever set, so this
    does not depend on the entries of the modifier table. *)
Theorem get_modifiers_range kb :
  0 <= wlr_keyboard_get_modifiers kb < 256 /\
  (depressed (modifiers kb) = 0 -> latched (modifiers kb) = 0 ->
   wlr_keyboard_get_modifiers kb = 0).
Proof.
  split; [split|].
  - unfold wlr_keyboard_get_modifiers.
    apply (fold_or_nonneg _ _ (modifiers_step_or kb _)). lia.
  - apply (bits_above_clear_lt _ 8); [|lia|].
    + unfold wlr_keyboard_get_modifiers.
      apply (fold_or_nonneg _ _ (modifiers_step_or kb _)). lia.
    + intros j Hj. apply wlr_keyboard_get_modifiers_high. exact Hj.
  - intros Hd Hl. apply Z.bits_inj'. intros j Hj. rewrite Z.bits_0.
    destruct (Z.lt_ge_cases j 8) as [Hlt|Hge];
      [|apply wlr_keyboard_get_modifiers_high; exact Hge].
    rewrite <- (Z2Nat.id j Hj).
    rewrite wlr_keyboard_get_modifiers_testbit
      by (unfold WLR_MODIFIER_COUNT; lia).
    unfold mod_active. rewrite Hd, Hl. cbn [Z.lor Z.land Z.eqb negb].
    destruct (_ =? XKB_MOD_INVALID); reflexivity.
Qed.

(** X16. The mask [keyboard_led_update] computes has 3 bits; bit [i] is set
    exactly when the library's answer for the [i]-th entry of the LED
    table is not zero. *)
Theorem led_mask_bits st indexes :
  0 <= led_mask st indexes < 8 /\
  (forall i : nat,
     (i < WLR_LED_COUNT)%nat ->
     Z.testbit (led_mask st indexes) (Z.of_nat i) =
     negb (xkb_state_led_index_is_active st (nth i indexes 0) =? 0)).
Proof.
  assert (Hnn : 0 <= led_mask st indexes).
  { unfold led_mask.
    apply (fold_or_nonneg _ _ (led_step_or st indexes)). lia. }
  split; [split; [exact Hnn|]|].
  - apply (bits_above_clear_lt _ 3); [exact Hnn|lia|].
    intros j Hj. unfold led_mask.
    rewrite (fold_or_testbit _ _ (led_step_or st indexes)).
    rewrite Z.bits_0. cbn [orb]. apply existsb_seq_beyond. exact Hj.
  - intros i Hi. apply led_mask_testbit. exact Hi.
Qed.

End Bounds.

(** ** Key events and modifier injection, case by case *)

Section Events.
Context `{XkbCommon}.

Lemma with_modifiers_same kb : with_modifiers (modifiers kb) kb = kb.
Proof.
  destruct kb. reflexivity.
Qed.

Lemma after_update_fst kb st :
  fst (after_update kb st) =
  with_modifiers (serialized st) (with_xkb_state (Some st) kb).
Proof.
  unfold after_update. destruct (modifiers_eqb _ _) eqn:E; [|reflexivity].
  apply modifiers_eqb_true in E. cbn [fst]. rewrite E.
  destruct kb. reflexivity.
Qed.

Lemma after_update_snd kb st :
  snd (after_update kb st) =
  (if modifiers_eqb (serialized st) (modifiers kb) then []
   else [wlr_signal_emit_safe events_modifiers]) ++
  (if has_led_hook kb then [impl_led_update (led_mask st (led_indexes kb))]
   else []).
Proof.
  unfold after_update. destruct (modifiers_eqb _ _); reflexivity.
Qed.

Lemma wlr_keyboard_notify_modifiers_none kb d l k g :
  xkb_state kb = None ->
  run (wlr_keyboard_notify_modifiers d l k g) kb = Some (kb, []).
Proof.
  intros Hst. unfold run, wlr_keyboard_notify_modifiers, bind, get, ret.
  rewrite Hst. reflexivity.
Qed.

Lemma wlr_keyboard_notify_key_none kb e :
  xkb_state kb = None ->
  (num_keycodes kb <= WLR_KEYBOARD_KEYS_CAP)%nat ->
  run (wlr_keyboard_notify_key e) kb =
  Some (with_keycodes (keycodes_after e (keycodes kb)) kb,
        [wlr_signal_emit_safe (events_key e)]).
Proof.
  intros Hst Hle.
  unfold run, wlr_keyboard_notify_key, bind at 1 2 3.
  rewrite (keyboard_key_update_eq e kb Hle).
  unfold emit, get. cbn [xkb_state with_keycodes]. rewrite Hst.
  reflexivity.
Qed.

Lemma wlr_keyboard_set_repeat_info_eq kb r dl :
  run (wlr_keyboard_set_repeat_info r dl) kb =
  if (rate (repeat_info kb) =? r) && (delay (repeat_info kb) =? dl)
  then Some (kb, [])
  else Some (with_repeat_info {| rate := r; delay := dl |} kb,
             [wlr_signal_emit_safe events_repeat_info]).
Proof.
  unfold run, wlr_keyboard_set_repeat_info, bind, get, modify, emit, ret.
  destruct (_ && _); reflexivity.
Qed.

(** X1. Without a keymap, a modifier injection does nothing at all, and a
    key event updates the key set and emits the key signal, nothing else:
    no modifiers signal, no LED push, the stored modifiers untouched. *)
Theorem without_keymap_only_keys_move kb :
  xkb_state kb = None ->
  (forall d l k g,
     run (wlr_keyboard_notify_modifiers d l k g) kb = Some (kb, [])) /\
  (forall e,
     (num_keycodes kb <= WLR_KEYBOARD_KEYS_CAP)%nat ->
     exists kb' t,
       run (wlr_keyboard_notify_key e) kb = Some (kb', t) /\
       t = [wlr_signal_emit_safe (events_key e)] /\
       keycodes kb' = keycodes_after e (keycodes kb) /\
       modifiers kb' = modifiers kb /\ xkb_state kb' = None /\
       wlr_keyboard_get_modifiers kb' = wlr_keyboard_get_modifiers kb).
Proof.
  intros Hst. split.
  - intros d l k g. apply wlr_keyboard_notify_modifiers_none, Hst.
  - intros e Hle. eexists _, _.
    split; [apply (wlr_keyboard_notify_key_none kb e Hst Hle)|].
    repeat split. exact Hst.
Qed.

(** X2. A key event on a key set within capacity is processed to the end
    and its effects come in a fixed order: the key signal with the raw
    event, then the modifiers signal if there is one, then the LED push if
    there is one. *)
Theorem key_event_effects_in_order kb e :
  (num_keycodes kb <= WLR_KEYBOARD_KEYS_CAP)%nat ->
  exists kb' sigs pushes,
    run (wlr_keyboard_notify_key e) kb =
    Some (kb', wlr_signal_emit_safe (events_key e) :: sigs ++ pushes) /\
    (sigs = [] \/ sigs = [wlr_signal_emit_safe events_modifiers]) /\
    (pushes = [] \/ exists m, pushes = [impl_led_update m]).
Proof.
  intros Hle. destruct (xkb_state kb) as [st|] eqn:Hst.
  - rewrite (wlr_keyboard_notify_key_eq kb st e Hst Hle).
    rewrite (surjective_pairing (after_update _ _)), after_update_snd.
    eexists _, _, _. split; [reflexivity|]. split.
    + destruct (modifiers_eqb _ _); [left|right]; reflexivity.
    + destruct (has_led_hook _); [right; eexists|left]; reflexivity.
  - rewrite (wlr_keyboard_notify_key_none kb e Hst Hle).
    exists (with_keycodes (keycodes_after e (keycodes kb)) kb), [], [].
    split; [reflexivity|]. split; left; reflexivity.
Qed.

(** X3. On a keyboard whose stored modifiers are those of its translation
    state, a key event that asks for no state update leaves the
    translation state and the modifiers as they are and emits the key
    signal only. *)
Theorem quiet_key_event_keeps_modifiers kb st e :
  xkb_state kb = Some st ->
  modifiers kb = serialized st ->
  (num_keycodes kb <= WLR_KEYBOARD_KEYS_CAP)%nat ->
  update_state e = false ->
  exists kb' t,
    run (wlr_keyboard_notify_key e) kb = Some (kb', t) /\
    signals t = [events_key e] /\
    xkb_state kb' = Some st /\ modifiers kb' = modifiers kb.
Proof.
  intros Hst Hsync Hle Hquiet.
  rewrite (wlr_keyboard_notify_key_eq kb st e Hst Hle).
  unfold state_after_key. rewrite Hquiet.
  rewrite (surjective_pairing (after_update _ _)).
  eexists _, _. split; [reflexivity|].
  rewrite after_update_fst. cbn [xkb_state modifiers with_modifiers].
  split; [|split; [reflexivity|symmetry; exact Hsync]].
  change (signals (wlr_signal_emit_safe (events_key e) :: ?t))
    with (events_key e :: signals t).
  rewrite after_update_signals. cbn [modifiers with_keycodes].
  rewrite Hsync, modifiers_eqb_refl. reflexivity.
Qed.

(** X4. [wlr_keyboard_set_repeat_info] stores the pair it is given and
    emits the repeat-info signal exactly when the pair differs from the
    stored one; the same call again changes and emits nothing. *)
Theorem repeat_info_change_gated kb r dl :
  exists kb' t,
    run (wlr_keyboard_set_repeat_info r dl) kb = Some (kb', t) /\
    repeat_info kb' = {| rate := r; delay := dl |} /\
    (t = [wlr_signal_emit_safe events_repeat_info] /\
     (rate (repeat_info kb) <> r \/ delay (repeat_info kb) <> dl) \/
     t = [] /\ kb' = kb) /\
    run (wlr_keyboard_set_repeat_info r dl) kb' = Some (kb', []).
Proof.
  rewrite wlr_keyboard_set_repeat_info_eq.
  destruct (_ && _) eqn:E.
  - exists kb, []. split; [reflexivity|].
    apply andb_true_iff in E as [Hr Hd].
    apply Z.eqb_eq in Hr, Hd.
    assert (Hri : repeat_info kb = {| rate := r; delay := dl |}).
    { destruct (repeat_info kb). cbn in Hr, Hd. subst. reflexivity. }
    split; [exact Hri|]. split; [right; split; reflexivity|].
    rewrite wlr_keyboard_set_repeat_info_eq, Hri. cbn [rate delay].
    rewrite !Z.eqb_refl. reflexivity.
  - eexists _, _. split; [reflexivity|]. split; [reflexivity|]. split.
    + left. split; [reflexivity|].
      apply andb_false_iff in E. rewrite !Z.eqb_neq in E. exact E.
    + rewrite wlr_keyboard_set_repeat_info_eq.
      cbn [repeat_info with_repeat_info rate delay].
      rewrite !Z.eqb_refl. reflexivity.
Qed.

End Events.

(** ** More on the keymap swap and the key set *)

Lemma set_remove_set_add (values : list Z) (cap : nat) (target : Z) :
  ~ In target values ->
  set_remove (set_add values cap target) cap target = values.
Proof.
  intros Hnot. unfold set_add, set_remove.
  destruct (existsb (Z.eqb target) values); [apply notin_remove, Hnot|].
  destruct (_ <? cap)%nat; [|apply notin_remove, Hnot].
  rewrite remove_app, (notin_remove Z.eq_dec _ _ Hnot). cbn.
  destruct (Z.eq_dec target target) as [_|Hne]; [|contradiction].
  apply app_nil_r.
Qed.

Section SwapMore.
Context `{XkbCommon}.

(** X5. A keymap swap, successful or not, keeps the held keycodes, the
    backend and the repeat info; it pushes no LED mask and emits no signal
    other than, at most once, the keymap signal. *)
Theorem set_keymap_frame kb km :
  exists kb' t,
    run (wlr_keyboard_set_keymap km) kb = Some (kb', t) /\
    keycodes kb' = keycodes kb /\ impl kb' = impl kb /\
    repeat_info kb' = repeat_info kb /\
    led_pushes t = [] /\
    (signals t = [] \/ signals t = [events_keymap]).
Proof.
  destruct (xkb_state_new km) as [st|] eqn:Hst.
  - destruct (xkb_keymap_get_as_string km) as [s|] eqn:Hs.
    + eexists _, _.
      split; [apply (wlr_keyboard_set_keymap_ok kb km st s Hst Hs)|].
      repeat split. right. reflexivity.
    + eexists _, _.
      split; [apply (wlr_keyboard_set_keymap_no_text kb km st Hst Hs)|].
      repeat split. left. reflexivity.
  - eexists _, _.
    split; [apply (wlr_keyboard_set_keymap_no_state kb km Hst)|].
    repeat split. left. reflexivity.
Qed.

(** X6. A failed keymap swap keeps the stored modifiers and the stored
    size of the keymap text, and modifier injections do nothing from then
    on.  When it is the construction of the translation state that
    failed, [wlr_keyboard_get_modifiers] returns what it returned before
    the call. *)
Theorem failed_swap_keeps_modifiers kb km :
  set_keymap_fails km ->
  exists kb' t,
    run (wlr_keyboard_set_keymap km) kb = Some (kb', t) /\
    modifiers kb' = modifiers kb /\
    keymap_size kb' = keymap_size kb /\
    (forall d l k g,
       run (wlr_keyboard_notify_modifiers d l k g) kb' = Some (kb', [])) /\
    (xkb_state_new km = None ->
     wlr_keyboard_get_modifiers kb' = wlr_keyboard_get_modifiers kb).
Proof.
  intros Hfail.
  destruct (xkb_state_new km) as [st|] eqn:Hst.
  - destruct Hfail as [Hf|Hs]; [rewrite Hst in Hf; discriminate Hf|].
    eexists _, _.
    split; [apply (wlr_keyboard_set_keymap_no_text kb km st Hst Hs)|].
    split; [reflexivity|]. split; [reflexivity|]. split.
    + intros d l k g. apply wlr_keyboard_notify_modifiers_none.
      reflexivity.
    + intros Hnone. discriminate Hnone.
  - eexists _, _.
    split; [apply (wlr_keyboard_set_keymap_no_state kb km Hst)|].
    split; [reflexivity|]. split; [reflexivity|]. split.
    + intros d l k g. apply wlr_keyboard_notify_modifiers_none.
      reflexivity.
    + intros _. reflexivity.
Qed.

(** X7. What a successful keymap swap leaves depends on the keyboard only
    through the held keycodes, the backend and the repeat info: modifiers
    latched, locked or injected before the swap are forgotten. *)
Theorem set_keymap_forgets_history kb1 kb2 km st s :
  xkb_state_new km = Some st ->
  xkb_keymap_get_as_string km = Some s ->
  keycodes kb1 = keycodes kb2 ->
  impl kb1 = impl kb2 ->
  repeat_info kb1 = repeat_info kb2 ->
  exists kb' t1 t2,
    run (wlr_keyboard_set_keymap km) kb1 = Some (kb', t1) /\
    run (wlr_keyboard_set_keymap km) kb2 = Some (kb', t2).
Proof.
  intros Hst Hs Hk Hi Hr.
  rewrite (wlr_keyboard_set_keymap_ok kb1 km st s Hst Hs).
  rewrite (wlr_keyboard_set_keymap_ok kb2 km st s Hst Hs).
  eexists _, _, _. split; [reflexivity|].
  unfold swapped. rewrite Hk, Hi, Hr. reflexivity.
Qed.

(** X8. The bookkeeping of a press of a keycode the key set does not
    hold, followed by that of its release, leaves the keyboard as it was,
    whether or not the press found room in the key set. *)
Theorem press_release_round_trip kb e1 e2 :
  (num_keycodes kb <= WLR_KEYBOARD_KEYS_CAP)%nat ->
  ~ In (keycode e1) (keycodes kb) ->
  state e1 = WLR_KEY_PRESSED ->
  state e2 = WLR_KEY_RELEASED ->
  keycode e2 = keycode e1 ->
  key_updates [e1; e2] kb = Some kb.
Proof.
  intros Hle Hnot Hp Hr Hk. cbn [key_updates]. unfold run.
  rewrite keyboard_key_update_eq by exact Hle.
  rewrite keyboard_key_update_eq
    by (apply (keycodes_after_length e1 (keycodes kb)), Hle).
  cbn [keycodes with_keycodes]. unfold keycodes_after.
  rewrite Hp, Hr, Hk, (set_remove_set_add _ _ _ Hnot).
  destruct kb. reflexivity.
Qed.

End SwapMore.

(** ** What holds along every session *)

Section Sessions.
Context `{XkbCommon}.

Lemma keycodes_after_NoDup e values :
  NoDup values -> NoDup (keycodes_after e values).
Proof.
  intros Hnd. unfold keycodes_after. destruct (state e).
  - apply set_remove_NoDup, Hnd.
  - apply set_add_NoDup, Hnd.
Qed.

Lemma keymap_ref_run_quiet (t : list effect) held :
  keymap_refs t = [] -> keymap_ref_run held t held.
Proof.
  induction t as [|e t IH]; intros Hq; [reflexivity|].
  destruct e; cbn in Hq |- *; try discriminate Hq; apply IH, Hq.
Qed.

Lemma keymap_ref_run_app (t1 t2 : list effect) held mid final :
  keymap_ref_run held t1 mid ->
  keymap_ref_run mid t2 final ->
  keymap_ref_run held (t1 ++ t2) final.
Proof.
  revert held. induction t1 as [|e t1 IH]; intros held H1 H2.
  - cbn in H1. subst mid. exact H2.
  - destruct e; cbn in H1 |- *;
      try (apply IH; assumption);
      (destruct H1 as [Hh H1]; split; [exact Hh|apply IH; assumption]).
Qed.

Lemma after_update_keymap_refs kb st :
  keymap_refs (snd (after_update kb st)) = [].
Proof.
  rewrite after_update_snd.
  destruct (modifiers_eqb _ _), (has_led_hook kb); reflexivity.
Qed.

Lemma after_update_inv kb st :
  session_inv kb -> xkb_state kb <> None ->
  session_inv (fst (after_update kb st)).
Proof.
  intros (Hle & Hnd & Hkm) Hsome. rewrite after_update_fst.
  split; [exact Hle|]. split; [exact Hnd|].
  cbn [xkb_state with_modifiers with_xkb_state modifiers keymap
       keymap_string keymap_size].
  destruct (xkb_state kb) as [st0|]; [|contradiction].
  destruct Hkm as (_ & km & s & Hk & Hs & Hsz & Ht).
  split; [reflexivity|]. exists km, s. repeat split; assumption.
Qed.

Lemma with_keycodes_inv kb e :
  session_inv kb ->
  session_inv (with_keycodes (keycodes_after e (keycodes kb)) kb).
Proof.
  intros (Hle & Hnd & Hkm). split; [|split].
  - apply keycodes_after_length, Hle.
  - apply keycodes_after_NoDup, Hnd.
  - exact Hkm.
Qed.

(** One call keeps the invariant and the backend, moves the keyboard's
    keymap reference from the keymap it held to the one it holds, and
    pushes nothing without a LED hook. *)
Lemma api_step kb c :
  session_inv kb ->
  exists kb' t,
    run (api_run c) kb = Some (kb', t) /\
    session_inv kb' /\ impl kb' = impl kb /\
    keymap_ref_run (keymap kb) t (keymap kb') /\
    (has_led_hook kb = false -> led_pushes t = []).
Proof.
  intros Hinv. pose proof Hinv as (Hle & Hnd & Hkm).
  destruct c as [e|d l k g|km|r dl]; cbn [api_run].
  - (* key event *)
    destruct (xkb_state kb) as [st|] eqn:Hst.
    + rewrite (wlr_keyboard_notify_key_eq kb st e Hst Hle).
      set (kb0 := with_keycodes (keycodes_after e (keycodes kb)) kb).
      rewrite (surjective_pairing (after_update kb0 _)).
      eexists _, _. split; [reflexivity|].
      split; [apply after_update_inv;
              [apply with_keycodes_inv, Hinv
              |cbn [kb0 xkb_state with_keycodes]; rewrite Hst;
               discriminate]|].
      rewrite after_update_fst. split; [reflexivity|]. split.
      * apply (keymap_ref_run_quiet (_ :: _)). cbn.
        apply after_update_keymap_refs.
      * intros Hhook.
        change (led_pushes (wlr_signal_emit_safe (events_key e) :: ?t))
          with (led_pushes t).
        rewrite after_update_led_pushes.
        change (has_led_hook kb0) with (has_led_hook kb).
        rewrite Hhook. reflexivity.
    + rewrite (wlr_keyboard_notify_key_none kb e Hst Hle).
      eexists _, _. split; [reflexivity|].
      split; [apply with_keycodes_inv, Hinv|].
      repeat split.
  - (* modifier injection *)
    destruct (xkb_state kb) as [st|] eqn:Hst.
    + rewrite (wlr_keyboard_notify_modifiers_eq kb st d l k g Hst).
      rewrite (surjective_pairing (after_update kb _)).
      eexists _, _. split; [reflexivity|].
      split; [apply after_update_inv;
              [exact Hinv|rewrite Hst; discriminate]|].
      rewrite after_update_fst. split; [reflexivity|]. split.
      * apply keymap_ref_run_quiet, after_update_keymap_refs.
      * intros Hhook. rewrite after_update_led_pushes, Hhook.
        reflexivity.
    + rewrite (wlr_keyboard_notify_modifiers_none kb d l k g Hst).
      exists kb, []. split; [reflexivity|]. split; [exact Hinv|].
      repeat split.
  - (* keymap swap *)
    destruct (xkb_state_new km) as [st|] eqn:Hnew.
    + destruct (xkb_keymap_get_as_string km) as [s|] eqn:Hs.
      * rewrite (wlr_keyboard_set_keymap_ok kb km st s Hnew Hs).
        eexists _, _. split; [reflexivity|]. split.
        { split; [exact Hle|]. split; [exact Hnd|].
          cbn [xkb_state swapped]. split; [reflexivity|].
          exists km, s. repeat split. }
        repeat split.
      * rewrite (wlr_keyboard_set_keymap_no_text kb km st Hnew Hs).
        eexists _, _. split; [reflexivity|]. split.
        { split; [exact Hle|]. split; [exact Hnd|].
          cbn [xkb_state rolled_back]. split; reflexivity. }
        repeat split.
    + rewrite (wlr_keyboard_set_keymap_no_state kb km Hnew).
      eexists _, _. split; [reflexivity|]. split.
      { split; [exact Hle|]. split; [exact Hnd|].
        cbn [xkb_state rolled_back]. split; reflexivity. }
      repeat split.
  - (* repeat info *)
    rewrite wlr_keyboard_set_repeat_info_eq.
    destruct (_ && _).
    + exists kb, []. split; [reflexivity|]. split; [exact Hinv|].
      repeat split.
    + eexists _, _. split; [reflexivity|].
      split; [exact Hinv|]. repeat split.
Qed.

Lemma api_runs_inv cs :
  forall kb,
    session_inv kb ->
    exists kb' t,
      api_runs cs kb = Some (kb', t) /\
      session_inv kb' /\ impl kb' = impl kb /\
      keymap_ref_run (keymap kb) t (keymap kb') /\
      (has_led_hook kb = false -> led_pushes t = []).
Proof.
  induction cs as [|c cs IH]; intros kb Hinv.
  - exists kb, []. split; [reflexivity|]. split; [exact Hinv|].
    repeat split.
  - destruct (api_step kb c Hinv)
      as (kb1 & t1 & Hrun & Hinv1 & Hi1 & Hr1 & Hp1).
    destruct (IH kb1 Hinv1)
      as (kb2 & t2 & Hruns & Hinv2 & Hi2 & Hr2 & Hp2).
    exists kb2, (t1 ++ t2). cbn [api_runs]. rewrite Hrun, Hruns.
    split; [reflexivity|]. split; [exact Hinv2|].
    split; [congruence|]. split.
    + apply (keymap_ref_run_app _ _ _ _ _ Hr1 Hr2).
    + intros Hhook. unfold led_pushes. rewrite flat_map_app.
      fold (led_pushes t1). fold (led_pushes t2).
      rewrite (Hp1 Hhook), Hp2; [reflexivity|].
      unfold has_led_hook in *. rewrite Hi1. exact Hhook.
Qed.

Lemma session_reaches_inv i cs :
  exists kb t,
    session i cs = Some (kb, t) /\
    session_inv kb /\ impl kb = i /\
    keymap_ref_run None t (keymap kb) /\
    (match i with Some b => led_update b | None => false end = false ->
     led_pushes t = []).
Proof.
  unfold session.
  change (run (wlr_keyboard_init i) zeroed)
    with (Some (with_repeat_info {| rate := 25; delay := 600 |}
                  (with_impl i zeroed), @nil effect)).
  set (kb0 := with_repeat_info _ _).
  destruct (api_runs_inv cs kb0) as (kb & t & Hruns & Hinv & Hi & Hr & Hp).
  { split; [cbn; unfold WLR_KEYBOARD_KEYS_CAP; lia|].
    split; [constructor|]. split; reflexivity. }
  exists kb, t. rewrite Hruns. split; [reflexivity|].
  split; [exact Hinv|]. split; [exact Hi|]. split; [exact Hr|exact Hp].
Qed.

(** X9. No sequence of calls on an initialised keyboard trips the
    assertion of [keyboard_key_update]: every call runs to its end, and
    the key set stays within capacity and free of duplicates. *)
Theorem session_never_aborts i cs :
  exists kb t,
    session i cs = Some (kb, t) /\
    (num_keycodes kb <= WLR_KEYBOARD_KEYS_CAP)%nat /\
    NoDup (keycodes kb).
Proof.
  destruct (session_reaches_inv i cs) as (kb & t & Hs & (Hle & Hnd & _) & _).
  exists kb, t. repeat split; assumption.
Qed.

(** X10. After any sequence of calls the keymap, the translation state
    and the keymap text are all present or all absent; when present, the
    stored size is the length of the text plus one and both index tables
    are those of the current keymap. *)
Theorem session_keymap_fields_together i cs :
  exists kb t,
    session i cs = Some (kb, t) /\
    (keymap kb = None /\ xkb_state kb = None /\ keymap_string kb = None \/
     exists km st s,
       keymap kb = Some km /\ xkb_state kb = Some st /\
       keymap_string kb = Some s /\
       keymap_size kb = Z.of_nat (String.length s) + 1 /\
       led_indexes kb = map (xkb_map_led_get_index km) led_names /\
       mod_indexes kb = map (xkb_map_mod_get_index km) mod_names).
Proof.
  destruct (session_reaches_inv i cs) as (kb & t & Hs & (_ & _ & Hkm) & _).
  exists kb, t. split; [exact Hs|].
  destruct (xkb_state kb) as [st|].
  - right. destruct Hkm as (_ & km & s & Hk & Hstr & Hsz & Ht).
    exists km, st, s. unfold tables, tables_of in Ht.
    injection Ht as Hl Hm. repeat split; assumption.
  - left. destruct Hkm as [Hk Hstr]. repeat split; assumption.
Qed.

(** X11. After any sequence of calls the stored modifiers are those
    serialized from the current translation state. *)
Theorem session_modifiers_in_sync i cs :
  exists kb t,
    session i cs = Some (kb, t) /\
    forall st, xkb_state kb = Some st -> modifiers kb = serialized st.
Proof.
  destruct (session_reaches_inv i cs) as (kb & t & Hs & (_ & _ & Hkm) & _).
  exists kb, t. split; [exact Hs|].
  intros st Hst. rewrite Hst in Hkm. apply Hkm.
Qed.

(** X12. A keyboard whose backend has no LED hook never pushes a LED mask,
    whatever it is asked. *)
Theorem session_without_hook_never_pushes i cs :
  match i with Some b => led_update b | None => false end = false ->
  exists kb t, session i cs = Some (kb, t) /\ led_pushes t = [].
Proof.
  intros Hhook.
  destruct (session_reaches_inv i cs) as (kb & t & Hs & _ & _ & _ & Hp).
  exists kb, t. split; [exact Hs|apply Hp, Hhook].
Qed.

(** X13. Over a whole life, from [wlr_keyboard_init] to
    [wlr_keyboard_destroy], the keyboard takes a reference on a keymap only
    when it holds none, releases only the keymap it holds, and holds none
    at the end. *)
Theorem life_keymap_references_balanced i cs :
  exists t, life i cs = Some t /\ keymap_ref_run None t None.
Proof.
  destruct (session_reaches_inv i cs) as (kb & t & Hs & _ & _ & Hr & _).
  unfold life. rewrite Hs. eexists. split; [reflexivity|].
  apply (keymap_ref_run_app _ _ _ _ _ Hr).
  unfold wlr_keyboard_destroy, core_effects.
  cbn [app flat_map keymap_ref_run]. split; [reflexivity|].
  destruct (impl kb) as [b|]; [destruct (destroy b)|]; reflexivity.
Qed.

End Sessions.

(** *** The further properties at concrete inputs *)

(** X1 at work on the initialised keyboard, before any keymap. *)
Lemma without_keymap_only_keys_move_witness :
  xkb_state Ref.kb_init = None /\
  (num_keycodes Ref.kb_init <= WLR_KEYBOARD_KEYS_CAP)%nat /\
  Ref.trace_of (@wlr_keyboard_notify_modifiers Ref.xkb 1 0 0 0) Ref.kb_init
  = [] /\
  Ref.trace_of (@wlr_keyboard_notify_key Ref.xkb (Ref.press 50)) Ref.kb_init
  = [wlr_signal_emit_safe (events_key (Ref.press 50))].
Proof.
  assert (Hst : xkb_state Ref.kb_init = None) by (vm_compute; reflexivity).
  assert (Hcap : (num_keycodes Ref.kb_init <= WLR_KEYBOARD_KEYS_CAP)%nat)
    by (vm_compute; lia).
  split; [exact Hst|]. split; [exact Hcap|].
  destruct (@without_keymap_only_keys_move Ref.xkb Ref.kb_init Hst)
    as (Hmods & Hkey).
  split.
  - destruct (ref_run_after _ _ _ _ (Hmods 1 0 0 0)) as [_ E]. exact E.
  - destruct (Hkey (Ref.press 50) Hcap) as (kb' & t & Hrun & Ht & _).
    destruct (ref_run_after _ _ _ _ Hrun) as [_ E].
    rewrite E. exact Ht.
Defined.

(** X2 at work: Shift pressed under [keymap_A]. *)
Lemma key_event_effects_in_order_witness :
  (num_keycodes Ref.kb_A <= WLR_KEYBOARD_KEYS_CAP)%nat /\
  exists sigs pushes,
    Ref.trace_of (@wlr_keyboard_notify_key Ref.xkb (Ref.press 50)) Ref.kb_A
    = wlr_signal_emit_safe (events_key (Ref.press 50)) :: sigs ++ pushes /\
    (sigs = [] \/ sigs = [wlr_signal_emit_safe events_modifiers]) /\
    (pushes = [] \/ exists m, pushes = [impl_led_update m]).
Proof.
  assert (Hcap : (num_keycodes Ref.kb_A <= WLR_KEYBOARD_KEYS_CAP)%nat)
    by (vm_compute; lia).
  split; [exact Hcap|].
  destruct (@key_event_effects_in_order Ref.xkb Ref.kb_A (Ref.press 50)
              Hcap) as (kb' & sigs & pushes & Hrun & Hs & Hp).
  destruct (ref_run_after _ _ _ _ Hrun) as [_ E].
  exists sigs, pushes. rewrite E. repeat split; assumption.
Defined.

(** X3 at work: a press that does not update the state, under
    [keymap_A]. *)
Lemma quiet_key_event_keeps_modifiers_witness :
  xkb_state Ref.kb_A = Some (Ref.fresh Ref.keymap_A) /\
  modifiers Ref.kb_A = @serialized Ref.xkb (Ref.fresh Ref.keymap_A) /\
  (num_keycodes Ref.kb_A <= WLR_KEYBOARD_KEYS_CAP)%nat /\
  update_state (RefApi.press_quiet 50) = false /\
  signals
    (Ref.trace_of
       (@wlr_keyboard_notify_key Ref.xkb (RefApi.press_quiet 50)) Ref.kb_A)
  = [events_key (RefApi.press_quiet 50)].
Proof.
  assert (Hst : xkb_state Ref.kb_A = Some (Ref.fresh Ref.keymap_A))
    by (vm_compute; reflexivity).
  assert (Hsync : modifiers Ref.kb_A =
                  @serialized Ref.xkb (Ref.fresh Ref.keymap_A))
    by (vm_compute; reflexivity).
  assert (Hcap : (num_keycodes Ref.kb_A <= WLR_KEYBOARD_KEYS_CAP)%nat)
    by (vm_compute; lia).
  split; [exact Hst|]. split; [exact Hsync|]. split; [exact Hcap|].
  split; [reflexivity|].
  destruct (@quiet_key_event_keeps_modifiers Ref.xkb Ref.kb_A _
              (RefApi.press_quiet 50) Hst Hsync Hcap eq_refl)
    as (kb' & t & Hrun & Hsig & _).
  destruct (ref_run_after _ _ _ _ Hrun) as [_ E].
  rewrite E. exact Hsig.
Defined.

(** X6 at work: with two keys held under [keymap_A], a swap to a keymap
    whose translation state cannot be constructed. *)
Lemma failed_swap_keeps_modifiers_witness :
  @set_keymap_fails Ref.xkb Ref.keymap_B_no_state /\
  xkb_state_new (XkbCommon := Ref.xkb) Ref.keymap_B_no_state = None /\
  (let kb' :=
     Ref.after (@wlr_keyboard_set_keymap Ref.xkb Ref.keymap_B_no_state)
       Ref.kb_A_held in
   modifiers kb' = modifiers Ref.kb_A_held /\
   @wlr_keyboard_get_modifiers Ref.xkb kb' =
   @wlr_keyboard_get_modifiers Ref.xkb Ref.kb_A_held).
Proof.
  assert (Hfail : @set_keymap_fails Ref.xkb Ref.keymap_B_no_state)
    by (left; reflexivity).
  split; [exact Hfail|]. split; [reflexivity|].
  destruct (@failed_swap_keeps_modifiers Ref.xkb Ref.kb_A_held _ Hfail)
    as (kb' & t & Hrun & Hm & _ & _ & Hget).
  destruct (ref_run_after _ _ _ _ Hrun) as [E _].
  rewrite E. split; [exact Hm|exact (Hget eq_refl)].
Defined.

(** X7 at work: the same two keys held, with and without Caps Lock locked
    by an injection; the swap to [keymap_B] leaves the same keyboard. *)
Lemma set_keymap_forgets_history_witness :
  keycodes RefApi.kb_A_locked = keycodes Ref.kb_A_held /\
  impl RefApi.kb_A_locked = impl Ref.kb_A_held /\
  repeat_info RefApi.kb_A_locked = repeat_info Ref.kb_A_held /\
  modifiers RefApi.kb_A_locked <> modifiers Ref.kb_A_held /\
  Ref.after (@wlr_keyboard_set_keymap Ref.xkb Ref.keymap_B)
    RefApi.kb_A_locked =
  Ref.after (@wlr_keyboard_set_keymap Ref.xkb Ref.keymap_B) Ref.kb_A_held.
Proof.
  assert (Hk : keycodes RefApi.kb_A_locked = keycodes Ref.kb_A_held)
    by (vm_compute; reflexivity).
  assert (Hi : impl RefApi.kb_A_locked = impl Ref.kb_A_held)
    by (vm_compute; reflexivity).
  assert (Hr : repeat_info RefApi.kb_A_locked = repeat_info Ref.kb_A_held)
    by (vm_compute; reflexivity).
  split; [exact Hk|]. split; [exact Hi|]. split; [exact Hr|].
  split; [vm_compute; discriminate|].
  destruct (@set_keymap_forgets_history Ref.xkb RefApi.kb_A_locked
              Ref.kb_A_held Ref.keymap_B _ _ eq_refl eq_refl Hk Hi Hr)
    as (kb' & t1 & t2 & H1 & H2).
  destruct (ref_run_after _ _ _ _ H1) as [E1 _].
  destruct (ref_run_after _ _ _ _ H2) as [E2 _].
  rewrite E1, E2. reflexivity.
Defined.

(** X8 at work: raw keycode 50, pressed and released. *)
Lemma press_release_round_trip_witness :
  (num_keycodes Ref.kb_A <= WLR_KEYBOARD_KEYS_CAP)%nat /\
  ~ In (keycode (Ref.press 50)) (keycodes Ref.kb_A) /\
  @key_updates Ref.xkb [Ref.press 50; Ref.release 50] Ref.kb_A =
  Some Ref.kb_A.
Proof.
  assert (Hcap : (num_keycodes Ref.kb_A <= WLR_KEYBOARD_KEYS_CAP)%nat)
    by (vm_compute; lia).
  assert (Hnot : ~ In (keycode (Ref.press 50)) (keycodes Ref.kb_A))
    by (vm_compute; intros []).
  split; [exact Hcap|]. split; [exact Hnot|].
  exact (@press_release_round_trip Ref.xkb Ref.kb_A (Ref.press 50)
           (Ref.release 50) Hcap Hnot eq_refl eq_refl eq_refl).
Defined.

(** X12 at work: the sample session on a backend without hooks. *)
Lemma session_without_hook_never_pushes_witness :
  led_update RefApi.no_hooks = false /\
  exists kb t,
    @session Ref.xkb (Some RefApi.no_hooks) RefApi.calls = Some (kb, t) /\
    led_pushes t = [].
Proof.
  split; [reflexivity|].
  exact (@session_without_hook_never_pushes Ref.xkb
           (Some RefApi.no_hooks) RefApi.calls eq_refl).
Defined.

(** ** The reported modifiers, the LED push and the destroy signal *)

Section Reports.
Context `{XkbCommon}.



(** C7 (as the code has it).  [wlr_keyboard_get_modifiers] reads the
    union of the stored depressed and latched masks, nothing of the locked
    mask, and the stored modifier table, not the keymap.  Bit [i] of the
    result, for [i] from 0 to 7, is set exactly when the [i]-th entry of
    the table is present and the union has the bit at that entry; no
    higher bit is set.  Every keymap swap that constructs a translation
    state fills the table with the indexes of Shift, Lock (CapsLock),
    Control, Mod1 (Alt), Mod2, Mod3, Mod4 (Super) and Mod5 in the new
    keymap, in this order; and in every state a session reaches with a
    keymap loaded, the table is that of the loaded keymap. *)
Theorem get_modifiers_reads_stored_table kb :
  mod_indexes_ok kb ->
  (forall i : nat,
     (i < WLR_MODIFIER_COUNT)%nat ->
     Z.testbit (wlr_keyboard_get_modifiers kb) (Z.of_nat i) =
     negb (nth i (mod_indexes kb) 0 =? XKB_MOD_INVALID) &&
     Z.testbit (Z.lor (depressed (modifiers kb)) (latched (modifiers kb)))
       (nth i (mod_indexes kb) 0)) /\
  (forall j, 8 <= j -> Z.testbit (wlr_keyboard_get_modifiers kb) j = false) /\
  (forall m,
     depressed m = depressed (modifiers kb) ->
     latched m = latched (modifiers kb) ->
     wlr_keyboard_get_modifiers (with_modifiers m kb) =
     wlr_keyboard_get_modifiers kb) /\
  (forall kb0 km,
     xkb_state_new km <> None ->
     exists kb' t,
       run (wlr_keyboard_set_keymap km) kb0 = Some (kb', t) /\
       mod_indexes kb' =
       map (xkb_map_mod_get_index km)
         ["Shift"; "Lock"; "Control"; "Mod1"; "Mod2"; "Mod3"; "Mod4";
          "Mod5"]%string) /\
  (forall i cs,
     exists kb' t,
       session i cs = Some (kb', t) /\
       forall km,
         keymap kb' = Some km ->
         mod_indexes kb' =
         map (xkb_map_mod_get_index km)
           ["Shift"; "Lock"; "Control"; "Mod1"; "Mod2"; "Mod3"; "Mod4";
            "Mod5"]%string).
Proof.
  intros [Hlen Hall]. split; [|split; [|split; [|split]]].
  - intros i Hi. rewrite (wlr_keyboard_get_modifiers_testbit kb i Hi).
    assert (Hin : In (nth i (mod_indexes kb) 0) (mod_indexes kb))
      by (apply nth_In; rewrite Hlen; exact Hi).
    rewrite Forall_forall in Hall. destruct (Hall _ Hin) as [E|Hr].
    + unfold mod_active. rewrite E, Z.eqb_refl. reflexivity.
    + rewrite (mod_active_in_range kb i Hr).
      destruct (Z.eqb_spec (nth i (mod_indexes kb) 0) XKB_MOD_INVALID)
        as [E|_]; [unfold XKB_MOD_INVALID in E; lia|reflexivity].
  - intros j Hj. apply wlr_keyboard_get_modifiers_high. exact Hj.
  - intros m Hd Hl. unfold wlr_keyboard_get_modifiers, modifiers_step.
    cbn [modifiers mod_indexes with_modifiers]. rewrite Hd, Hl.
    reflexivity.
  - intros kb0 km Hnew.
    destruct (xkb_state_new km) as [st|] eqn:Hst; [|contradiction].
    destruct (xkb_keymap_get_as_string km) as [s|] eqn:Hs.
    + eexists _, _.
      split; [apply (wlr_keyboard_set_keymap_ok kb0 km st s Hst Hs)|].
      reflexivity.
    + eexists _, _.
      split; [apply (wlr_keyboard_set_keymap_no_text kb0 km st Hst Hs)|].
      reflexivity.
  - intros i cs.
    destruct (session_reaches_inv i cs)
      as (kb' & t & Hs & (_ & _ & Hkm) & _).
    exists kb', t. split; [exact Hs|].
    intros km Hk. destruct (xkb_state kb') as [st|].
    + destruct Hkm as (_ & km' & s & Hk' & _ & _ & Ht).
      rewrite Hk in Hk'. injection Hk' as <-.
      unfold tables, tables_of in Ht. injection Ht as _ Hm. exact Hm.
    + destruct Hkm as [Hnone _]. rewrite Hk in Hnone. discriminate Hnone.
Qed.


(** No call of a session emits the destroy signal. *)
Lemma after_update_no_destroy kb st :
  ~ In events_destroy (signals (snd (after_update kb st))).
Proof.
  rewrite after_update_signals.
  destruct (modifiers_eqb _ _); cbn; intuition discriminate.
Qed.

Lemma api_run_no_destroy kb c kb' t :
  session_inv kb ->
  run (api_run c) kb = Some (kb', t) ->
  ~ In events_destroy (signals t).
Proof.
  intros Hinv. pose proof Hinv as (Hle & _ & _).
  destruct c as [e|d l k g|km|r dl]; cbn [api_run].
  - destruct (xkb_state kb) as [st|] eqn:Hst.
    + rewrite (wlr_keyboard_notify_key_eq kb st e Hst Hle).
      rewrite (surjective_pairing (after_update _ _)).
      intros E. injection E as _ <-.
      change (signals (wlr_signal_emit_safe (events_key e) :: ?t))
        with (events_key e :: signals t).
      intros [Hk|Hin]; [discriminate Hk|].
      exact (after_update_no_destroy _ _ Hin).
    + rewrite (wlr_keyboard_notify_key_none kb e Hst Hle).
      intros E. injection E as _ <-. cbn. intuition discriminate.
  - destruct (xkb_state kb) as [st|] eqn:Hst.
    + rewrite (wlr_keyboard_notify_modifiers_eq kb st d l k g Hst).
      rewrite (surjective_pairing (after_update _ _)).
      intros E. injection E as _ <-. apply after_update_no_destroy.
    + rewrite (wlr_keyboard_notify_modifiers_none kb d l k g Hst).
      intros E. injection E as _ <-. intros [].
  - destruct (xkb_state_new km) as [st|] eqn:Hnew.
    + destruct (xkb_keymap_get_as_string km) as [s|] eqn:Hs.
      * rewrite (wlr_keyboard_set_keymap_ok kb km st s Hnew Hs).
        intros E. injection E as _ <-. cbn. intuition discriminate.
      * rewrite (wlr_keyboard_set_keymap_no_text kb km st Hnew Hs).
        intros E. injection E as _ <-. intros [].
    + rewrite (wlr_keyboard_set_keymap_no_state kb km Hnew).
      intros E. injection E as _ <-. intros [].
  - rewrite wlr_keyboard_set_repeat_info_eq.
    destruct (_ && _); intros E; injection E as _ <-; cbn;
      intuition discriminate.
Qed.

Lemma api_runs_no_destroy cs :
  forall kb kb' t,
    session_inv kb ->
    api_runs cs kb = Some (kb', t) ->
    ~ In events_destroy (signals t).
Proof.
  induction cs as [|c cs IH]; intros kb kb' t Hinv; cbn [api_runs].
  - intros E. injection E as _ <-. intros [].
  - destruct (api_step kb c Hinv) as (kb1 & t1 & Hrun & Hinv1 & _).
    rewrite Hrun.
    destruct (api_runs cs kb1) as [[kb2 t2]|] eqn:Hruns; [|discriminate].
    intros E. injection E as _ <-.
    unfold signals. rewrite flat_map_app, in_app_iff.
    intros [Hin|Hin].
    + exact (api_run_no_destroy kb c kb1 t1 Hinv Hrun Hin).
    + exact (IH kb1 kb2 t2 Hinv1 Hruns Hin).
Qed.

(** X14. Over a whole life the destroy signal is emitted exactly once and
    is the last signal: no call of the session emits it, the teardown
    emits it before it releases anything, and what it then releases is
    the translation state, the keymap and the keymap text the session
    left. *)
Theorem destroy_signal_once_and_last i cs :
  exists kb t t',
    session i cs = Some (kb, t) /\
    ~ In events_destroy (signals t) /\
    life i cs = Some t' /\
    t' = t ++ [wlr_signal_emit_safe events_destroy;
               xkb_state_unref (xkb_state kb);
               xkb_keymap_unref (keymap kb);
               free (keymap_string kb)] /\
    signals t' = signals t ++ [events_destroy].
Proof.
  unfold life, session.
  change (run (wlr_keyboard_init i) zeroed)
    with (Some (with_repeat_info {| rate := 25; delay := 600 |}
                  (with_impl i zeroed), @nil effect)).
  set (kb0 := with_repeat_info _ _).
  assert (Hinv0 : session_inv kb0).
  { split; [cbn; unfold WLR_KEYBOARD_KEYS_CAP; lia|].
    split; [constructor|]. split; reflexivity. }
  destruct (api_runs_inv cs kb0 Hinv0) as (kb & t & Hruns & _).
  rewrite Hruns. cbn [app].
  exists kb, t. eexists. split; [reflexivity|].
  split; [exact (api_runs_no_destroy cs kb0 kb t Hinv0 Hruns)|].
  split; [reflexivity|].
  assert (Hcore : core_effects (wlr_keyboard_destroy (Some kb)) =
                  [wlr_signal_emit_safe events_destroy;
                   xkb_state_unref (xkb_state kb);
                   xkb_keymap_unref (keymap kb);
                   free (keymap_string kb)]).
  { unfold wlr_keyboard_destroy, core_effects. cbn [app flat_map].
    destruct (impl kb) as [b|]; [destruct (destroy b)|]; reflexivity. }
  rewrite Hcore. split; [reflexivity|].
  unfold signals. rewrite flat_map_app. reflexivity.
Qed.

End Reports.

(** C7, as stated, fails.  With Shift and Control depressed under
    [keymap_A], a swap to a keymap that cannot be serialized leaves no
    keymap and the table of the keymap that failed: with no keymap
    loaded, [wlr_keyboard_get_modifiers] reports CapsLock and Control. *)
Lemma get_modifiers_reports_without_keymap :
  keymap RefApi.kb_no_keymap = None /\
  @wlr_keyboard_get_modifiers Ref.xkb RefApi.kb_no_keymap = 6 /\
  Z.testbit (@wlr_keyboard_get_modifiers Ref.xkb RefApi.kb_no_keymap) 1
  = true.
Proof.
  repeat split; vm_compute; reflexivity.
Qed.

(** C7 at work: under [keymap_B], with Shift depressed, bit 0 is set and
    the bit of Mod1, absent from [keymap_B], is clear. *)
Lemma get_modifiers_reads_stored_table_witness :
  mod_indexes_ok Ref.kb_B /\
  Z.testbit (@wlr_keyboard_get_modifiers Ref.xkb Ref.kb_B) 0 = true /\
  Z.testbit (@wlr_keyboard_get_modifiers Ref.xkb Ref.kb_B) 3 = false.
Proof.
  assert (Hok : mod_indexes_ok Ref.kb_B).
  { split; [vm_compute; reflexivity|].
    replace (mod_indexes Ref.kb_B)
      with [1; 2; 0; XKB_MOD_INVALID; XKB_MOD_INVALID; XKB_MOD_INVALID;
            XKB_MOD_INVALID; XKB_MOD_INVALID]
      by (vm_compute; reflexivity).
    repeat (apply Forall_cons; [(left; reflexivity) || (right; lia)|]).
    apply Forall_nil. }
  split; [exact Hok|].
  destruct (@get_modifiers_reads_stored_table Ref.xkb Ref.kb_B Hok)
    as (Hbits & _).
  assert (H0 : (0 < WLR_MODIFIER_COUNT)%nat)
    by (unfold WLR_MODIFIER_COUNT; lia).
  assert (H3 : (3 < WLR_MODIFIER_COUNT)%nat)
    by (unfold WLR_MODIFIER_COUNT; lia).
  pose proof (Hbits 0%nat H0) as Hshift.
  pose proof (Hbits 3%nat H3) as Halt.
  change (Z.of_nat 0) with 0 in Hshift.
  change (Z.of_nat 3) with 3 in Halt.
  rewrite Hshift, Halt. split; vm_compute; reflexivity.
Defined.


